(** * Terminal tab and its pane tree

    A shallow embedding of [Tab] (src/cascadia/TerminalApp, Tab.cpp) together
    with the part of [Pane] that the Tab drives.  Tab.cpp is embedded method
    by method in a small state monad; Pane.cpp is not among the sources, so
    the Pane operations are modelled from the specification and marked so. *)

From Stdlib Require Import List String Bool Arith NArith Lia QArith Lqa.
Import ListNotations.
Local Open Scope nat_scope.

(** ** Data *)

(** A [std::shared_ptr<Pane>] is modelled by the slot the pane lives in; two
    pointers are equal iff they name the same slot. *)
Definition PaneId := nat.

(** A possibly null [std::shared_ptr<Pane>]. *)
Definition PanePtr := option PaneId.

Definition GUID := N.

(** A [TermControl] is a WinRT handle: [None] is the null handle, [Some c]
    refers to the control object [c], which lives outside of the Tab. *)
Definition TermControl := option nat.

Definition hstring := string.

(** [Windows::Foundation::Size], a width and a height; the two floats are
    idealised as rationals. *)
Record Size := mkSize { Width : Q; Height : Q }.

(** Modelled from the spec: the two enumerations of section 6, whose
    declarations are missing; [SplitState] names the orientation of a split,
    [Direction] the way focus moves. *)
Inductive SplitState := Vertical | Horizontal.

Inductive Direction := Left | Right | Up | Down.

(** Modelled from the spec: the class Pane (Pane.h, Pane.cpp are missing).
    A node is a leaf holding its content (profile and control) or a split
    holding two exclusively owned children, an orientation and a ratio; every
    node carries [isActive] and [lastAllocatedSize].  A node keeps its slot
    when the node stored there is replaced: the Tab takes [_rootPane] once, in
    its constructor, and never reassigns it. *)
Inductive Pane :=
| LeafNode (slot : PaneId) (profile : GUID) (control : TermControl)
           (isActive : bool) (lastAllocatedSize : Size)
| SplitNode (slot : PaneId) (orientation : SplitState) (splitRatio : Q)
            (isActive : bool) (lastAllocatedSize : Size)
            (first second : Pane).

(** Work queued on the tab view item's dispatcher: the two lambdas of
    [SetTabText] and [UpdateIcon]. *)
Inductive Task :=
| SetHeaderTask (text : hstring)
| SetIconSourceTask.

(** What leaves the Tab, in the order it happens.  The lambda of [Scroll]
    is handed to the dispatcher of the control, not of the tab view item: it
    captures the control and [delta], and when it runs it asks the control
    for [GetScrollOffset()] and calls [KeyboardScrollViewport] with the
    offset plus [delta]; it touches nothing of the Tab. *)
Inductive Effect :=
| Focus (c : nat)             (* control.Focus(FocusState::Programmatic) *)
| RunAsync (t : Task)         (* _tabViewItem.Dispatcher().RunAsync(...) *)
| Closed                      (* _ClosedHandlers(nullptr, nullptr) *)
| ActivePaneChanged           (* _ActivePaneChangedHandlers() *)
| RunAsyncScroll (c : nat) (delta : Z).
                              (* control.Dispatcher().RunAsync([control, delta]...) *)

(** The lambdas Tab.cpp registers, one type per event. *)
Inductive ClosedHandler := Tab_ctor_lambda.
Inductive GotFocusHandler := Tab_AttachEventHandlersToPane_lambda.
Inductive TitleChangedHandler := Tab_AttachEventHandlersToControl_lambda.

Record TabViewItem := mkTabViewItem {
  Header : option hstring;
  IconSource : option hstring
}.

Record Tab := mkTab {
  _rootPane : PaneId;
  _activePane : PaneId;
  _focused : bool;
  _lastIconPath : hstring;
  _tabViewItem : TabViewItem
}.

(** Everything a Tab method can read or change: the pane tree ([None] once
    the last leaf was closed), the slot counter, the titles of the controls,
    the event registrations, the dispatcher queue, the trace of effects,
    whether a [weak_ptr<Tab>] can still be locked, and the Tab itself. *)
Record World := mkWorld {
  tree : option Pane;
  nextId : PaneId;
  Title : nat -> hstring;
  ClosedHandlers : list (PaneId * ClosedHandler);
  GotFocusHandlers : list (PaneId * GotFocusHandler);
  TitleChangedHandlers : list (nat * TitleChangedHandler);
  dispatcher : list Task;
  trace : list Effect;
  tabAlive : bool;
  tab : Tab
}.

Definition with_tree (t : option Pane) (w : World) : World :=
  mkWorld t (nextId w) (Title w) (ClosedHandlers w) (GotFocusHandlers w)
          (TitleChangedHandlers w) (dispatcher w) (trace w) (tabAlive w) (tab w).

Definition with_nextId (n : PaneId) (w : World) : World :=
  mkWorld (tree w) n (Title w) (ClosedHandlers w) (GotFocusHandlers w)
          (TitleChangedHandlers w) (dispatcher w) (trace w) (tabAlive w) (tab w).

Definition with_GotFocusHandlers (l : list (PaneId * GotFocusHandler)) (w : World) : World :=
  mkWorld (tree w) (nextId w) (Title w) (ClosedHandlers w) l
          (TitleChangedHandlers w) (dispatcher w) (trace w) (tabAlive w) (tab w).

Definition with_TitleChangedHandlers (l : list (nat * TitleChangedHandler)) (w : World) : World :=
  mkWorld (tree w) (nextId w) (Title w) (ClosedHandlers w) (GotFocusHandlers w)
          l (dispatcher w) (trace w) (tabAlive w) (tab w).

Definition with_dispatcher (q : list Task) (w : World) : World :=
  mkWorld (tree w) (nextId w) (Title w) (ClosedHandlers w) (GotFocusHandlers w)
          (TitleChangedHandlers w) q (trace w) (tabAlive w) (tab w).

Definition with_trace (tr : list Effect) (w : World) : World :=
  mkWorld (tree w) (nextId w) (Title w) (ClosedHandlers w) (GotFocusHandlers w)
          (TitleChangedHandlers w) (dispatcher w) tr (tabAlive w) (tab w).

Definition with_tab (t : Tab) (w : World) : World :=
  mkWorld (tree w) (nextId w) (Title w) (ClosedHandlers w) (GotFocusHandlers w)
          (TitleChangedHandlers w) (dispatcher w) (trace w) (tabAlive w) t.

Definition set_activePane (p : PaneId) (t : Tab) : Tab :=
  mkTab (_rootPane t) p (_focused t) (_lastIconPath t) (_tabViewItem t).

Definition set_focused (b : bool) (t : Tab) : Tab :=
  mkTab (_rootPane t) (_activePane t) b (_lastIconPath t) (_tabViewItem t).

Definition set_lastIconPath (s : hstring) (t : Tab) : Tab :=
  mkTab (_rootPane t) (_activePane t) (_focused t) s (_tabViewItem t).

Definition set_tabViewItem (v : TabViewItem) (t : Tab) : Tab :=
  mkTab (_rootPane t) (_activePane t) (_focused t) (_lastIconPath t) v.

(** ** The monad: state, and a fault where the C++ dereferences null *)

Inductive Outcome (A : Type) :=
| Ok (a : A) (w : World)
| Fault (w : World).
Arguments Ok {A} a w.
Arguments Fault {A} w.

Definition M (A : Type) := World -> Outcome A.

Definition ret {A} (a : A) : M A := fun w => Ok a w.

Definition bind {A B} (m : M A) (k : A -> M B) : M B :=
  fun w => match m w with
           | Ok a w' => k a w'
           | Fault w' => Fault w'
           end.

Definition gets {A} (f : World -> A) : M A := fun w => Ok (f w) w.

Definition modify (f : World -> World) : M unit := fun w => Ok tt (f w).

Definition fault {A} : M A := fun w => Fault w.

Declare Scope tab_scope.
Delimit Scope tab_scope with tab.
Notation "x <- m ;; k" := (bind m (fun x => k))
  (at level 61, m at next level, right associativity) : tab_scope.
Notation "m ;; k" := (bind m (fun _ => k))
  (at level 61, right associativity) : tab_scope.
Local Open Scope tab_scope.

(** The world an outcome ends in, whether the call returned or faulted. *)
Definition world_of {A} (o : Outcome A) : World :=
  match o with Ok _ w => w | Fault w => w end.

Definition emit (e : Effect) : M unit :=
  modify (fun w => with_trace (trace w ++ [e]) w).

(** [Dispatcher().RunAsync(priority, task)]: the task is queued, not run. *)
Definition Dispatcher_RunAsync (t : Task) : M unit :=
  modify (fun w => with_dispatcher (dispatcher w ++ [t]) w) ;;
  emit (RunAsync t).

(** ** Pane: the tree (modelled from the specification) *)

Definition pane_id (t : Pane) : PaneId :=
  match t with
  | LeafNode i _ _ _ _ => i
  | SplitNode i _ _ _ _ _ _ => i
  end.

Definition is_leaf (t : Pane) : bool :=
  match t with
  | LeafNode _ _ _ _ _ => true
  | SplitNode _ _ _ _ _ _ _ => false
  end.

(** The slots of a tree, parents before children, first child before second. *)
Fixpoint slots (t : Pane) : list PaneId :=
  match t with
  | LeafNode i _ _ _ _ => [i]
  | SplitNode i _ _ _ _ f s => i :: slots f ++ slots s
  end.

(** The slots that hold a leaf. *)
Fixpoint leaves (t : Pane) : list PaneId :=
  match t with
  | LeafNode i _ _ _ _ => [i]
  | SplitNode _ _ _ _ _ f s => leaves f ++ leaves s
  end.

(** The slots of the leaves whose [isActive] is set. *)
Fixpoint active_leaves (t : Pane) : list PaneId :=
  match t with
  | LeafNode i _ _ a _ => if a then [i] else []
  | SplitNode _ _ _ _ _ f s => active_leaves f ++ active_leaves s
  end.

(** Following a pointer: the node stored in slot [this], if the tree has it. *)
Fixpoint find_pane (this : PaneId) (t : Pane) : option Pane :=
  if pane_id t =? this then Some t else
  match t with
  | LeafNode _ _ _ _ _ => None
  | SplitNode _ _ _ _ _ f s =>
      match find_pane this f with
      | Some p => Some p
      | None => find_pane this s
      end
  end.

(** Running a method of the node stored in slot [this]: the node is replaced
    by what the method makes of it, the rest of the tree stays. *)
Fixpoint at_slot (this : PaneId) (m : Pane -> Pane) (t : Pane) : Pane :=
  if pane_id t =? this then m t else
  match t with
  | LeafNode _ _ _ _ _ => t
  | SplitNode i o r a sz f s =>
      SplitNode i o r a sz (at_slot this m f) (at_slot this m s)
  end.

Definition deref (this : PaneId) (w : World) : option Pane :=
  match tree w with
  | Some t => find_pane this t
  | None => None
  end.

Definition call_at (this : PaneId) (m : Pane -> Pane) : M unit :=
  modify (fun w => with_tree (option_map (at_slot this m) (tree w)) w).

(** Modelled from the spec: Pane's constructor, a leaf around its content;
    the third argument is the initial [isActive].  No size is allocated
    before the first resize pass. *)
Definition Pane_new (slot : PaneId) (profile : GUID) (control : TermControl)
                    (lastFocused : bool) : Pane :=
  LeafNode slot profile control lastFocused (mkSize 0 0).

(** Modelled from the spec: Pane::ClearActive, the recursive clear of
    [isActive] across the tree below the node it is called on. *)
Fixpoint ClearActive (t : Pane) : Pane :=
  match t with
  | LeafNode i p c _ sz => LeafNode i p c false sz
  | SplitNode i o r _ sz f s => SplitNode i o r false sz (ClearActive f) (ClearActive s)
  end.

(** Modelled from the spec: Pane::SetActive, which marks the one node it is
    called on. *)
Definition SetActive (t : Pane) : Pane :=
  match t with
  | LeafNode i p c _ sz => LeafNode i p c true sz
  | SplitNode i o r _ sz f s => SplitNode i o r true sz f s
  end.

Definition Pane_ClearActive (this : PaneId) : M unit := call_at this ClearActive.

Definition Pane_SetActive (this : PaneId) : M unit := call_at this SetActive.

(** Modelled from the spec: Pane::GetTerminalControl and
    Pane::GetFocusedProfile, the content of a leaf; a split has no content,
    and neither has a slot that the tree no longer holds. *)
Definition Pane_GetTerminalControl (this : PaneId) : M TermControl :=
  gets (fun w => match deref this w with
                 | Some (LeafNode _ _ c _ _) => c
                 | _ => None
                 end).

Definition Pane_GetFocusedProfile (this : PaneId) : M (option GUID) :=
  gets (fun w => match deref this w with
                 | Some (LeafNode _ p _ _ _) => Some p
                 | _ => None
                 end).

(** Modelled from the spec: the share of each child when [sz] is divided by
    a split.  A vertical split places its children side by side and divides
    the width, a horizontal one stacks them and divides the height. *)
Definition axis (o : SplitState) (sz : Size) : Q :=
  match o with Vertical => Width sz | Horizontal => Height sz end.

Definition child_sizes (o : SplitState) (r : Q) (sz : Size) : Size * Size :=
  match o with
  | Vertical =>
      (mkSize (Width sz * r) (Height sz), mkSize (Width sz - Width sz * r) (Height sz))
  | Horizontal =>
      (mkSize (Width sz) (Height sz * r), mkSize (Width sz) (Height sz - Height sz * r))
  end.

(** Modelled from the spec: Pane::ResizeContent, the depth-first pass that
    allocates every node its size from the ratios. *)
Fixpoint ResizeContent (newSize : Size) (t : Pane) : Pane :=
  match t with
  | LeafNode i p c a _ => LeafNode i p c a newSize
  | SplitNode i o r a _ f s =>
      SplitNode i o r a newSize
                (ResizeContent (fst (child_sizes o r newSize)) f)
                (ResizeContent (snd (child_sizes o r newSize)) s)
  end.

Definition Pane_ResizeContent (this : PaneId) (newSize : Size) : M unit :=
  call_at this (ResizeContent newSize).

(** ** Tab: the queries and [SetTabText] (Tab.cpp) *)

Definition this_activePane : M PaneId := gets (fun w => _activePane (tab w)).

Definition this_rootPane : M PaneId := gets (fun w => _rootPane (tab w)).

(** [weakThis.lock()]: whether the Tab is still owned by somebody. *)
Definition weakThis_lock : M bool := gets tabAlive.

(** [return _activePane->GetTerminalControl();] *)
Definition Tab_GetActiveTerminalControl : M TermControl :=
  activePane <- this_activePane ;;
  Pane_GetTerminalControl activePane.

(** [return _focused;] *)
Definition Tab_IsFocused : M bool := gets (fun w => _focused (tab w)).

(** [return _activePane->GetFocusedProfile();] *)
Definition Tab_GetFocusedProfile : M (option GUID) :=
  activePane <- this_activePane ;;
  Pane_GetFocusedProfile activePane.

(** [return lastFocusedControl ? lastFocusedControl.Title() : L"";] *)
Definition Tab_GetActiveTitle : M hstring :=
  lastFocusedControl <- Tab_GetActiveTerminalControl ;;
  match lastFocusedControl with
  | Some c => gets (fun w => Title w c)
  | None => ret EmptyString
  end.

(** The header is set by a task handed to the dispatcher; the task carries
    its own copy of the text. *)
Definition Tab_SetTabText (text : hstring) : M unit :=
  Dispatcher_RunAsync (SetHeaderTask text).

(** [_focused = true;] then the focus request, if there is a control. *)
Definition Tab__Focus : M unit :=
  modify (fun w => with_tab (set_focused true (tab w)) w) ;;
  lastFocusedControl <- Tab_GetActiveTerminalControl ;;
  match lastFocusedControl with
  | Some c => emit (Focus c)
  | None => ret tt
  end.

Definition Tab_SetFocused (focused : bool) : M unit :=
  modify (fun w => with_tab (set_focused focused (tab w)) w) ;;
  focusedNow <- Tab_IsFocused ;;
  if focusedNow then Tab__Focus else ret tt.

(** The icon is reloaded by a dispatcher task, which reads [_lastIconPath]
    when it runs. *)
Definition Tab_UpdateIcon (iconPath : hstring) : M unit :=
  lastIconPath <- gets (fun w => _lastIconPath (tab w)) ;;
  if String.eqb iconPath lastIconPath then ret tt
  else
    modify (fun w => with_tab (set_lastIconPath iconPath (tab w)) w) ;;
    Dispatcher_RunAsync SetIconSourceTask.

(** ** The lambdas of Tab.cpp *)

(** Registered on the root pane's Closed event by the constructor.  It
    captures [this] by value, a plain pointer: unlike the other lambdas it
    holds no [weak_ptr] and locks nothing.  Run while the Tab exists it
    raises the Tab's Closed event, whatever the state of the Tab; run after
    the Tab was destroyed it calls through a dangling pointer, which is a
    fault. *)
Definition invoke_Closed (h : ClosedHandler) : M unit :=
  match h with
  | Tab_ctor_lambda =>
      thisExists <- gets tabAlive ;;
      if thisExists then emit Closed else fault
  end.

(** Registered on a pane's GotFocus event by [_AttachEventHandlersToPane]. *)
Definition invoke_GotFocus (h : GotFocusHandler) (sender : PaneId) : M unit :=
  match h with
  | Tab_AttachEventHandlersToPane_lambda =>
      tabLocked <- weakThis_lock ;;
      if tabLocked then
        activePane <- this_activePane ;;
        if negb (sender =? activePane) then
          rootPane <- this_rootPane ;;
          Pane_ClearActive rootPane ;;
          modify (fun w => with_tab (set_activePane sender (tab w)) w) ;;
          activePane' <- this_activePane ;;
          Pane_SetActive activePane' ;;
          title <- Tab_GetActiveTitle ;;
          Tab_SetTabText title ;;
          emit ActivePaneChanged
        else ret tt
      else ret tt
  end.

(** Registered on a control's TitleChanged event by
    [_AttachEventHandlersToControl]; the new title is not looked at. *)
Definition invoke_TitleChanged (h : TitleChangedHandler) (newTitle : hstring) : M unit :=
  match h with
  | Tab_AttachEventHandlersToControl_lambda =>
      tabLocked <- weakThis_lock ;;
      if tabLocked then
        title <- Tab_GetActiveTitle ;;
        Tab_SetTabText title
      else ret tt
  end.

(** The two dispatcher lambdas, run when the dispatcher gets to them.
    [GetColoredIcon] (Utils.h) is not among the sources: an icon source is
    identified by the path it is made from. *)
Definition run_task (t : Task) : M unit :=
  match t with
  | SetHeaderTask text =>
      tabLocked <- weakThis_lock ;;
      if tabLocked then
        modify (fun w => with_tab
          (set_tabViewItem (mkTabViewItem (Some text) (IconSource (_tabViewItem (tab w))))
                           (tab w)) w)
      else ret tt
  | SetIconSourceTask =>
      tabLocked <- weakThis_lock ;;
      if tabLocked then
        modify (fun w => with_tab
          (set_tabViewItem (mkTabViewItem (Header (_tabViewItem (tab w)))
                                          (Some (_lastIconPath (tab w))))
                           (tab w)) w)
      else ret tt
  end.

Fixpoint run_tasks (q : list Task) : M unit :=
  match q with
  | [] => ret tt
  | t :: q' => run_task t ;; run_tasks q'
  end.

(** The dispatcher runs everything that is queued, oldest first. *)
Definition Dispatcher_drain : M unit :=
  q <- gets dispatcher ;;
  modify (with_dispatcher []) ;;
  run_tasks q.

(** ** Events raised by panes and controls *)

Fixpoint raise_to {K H} (eqb : K -> K -> bool) (invoke : H -> M unit)
                  (source : K) (hs : list (K * H)) : M unit :=
  match hs with
  | [] => ret tt
  | (k, h) :: hs' =>
      (if eqb k source then invoke h else ret tt) ;;
      raise_to eqb invoke source hs'
  end.

(** Modelled from the spec: a pane raising Closed, which runs what was
    registered on that pane, in order of registration. *)
Definition Pane_raise_Closed (this : PaneId) : M unit :=
  hs <- gets ClosedHandlers ;;
  raise_to Nat.eqb invoke_Closed this hs.

(** Modelled from the spec: the GotFocus notification.  Every leaf, when its
    content reports that it gained focus, raises it with its own identity;
    a slot that holds no leaf of the tree has no content to report. *)
Definition Pane_raise_GotFocus (sender : PaneId) : M unit :=
  node <- gets (deref sender) ;;
  match node with
  | Some (LeafNode _ _ _ _ _) =>
      hs <- gets GotFocusHandlers ;;
      raise_to Nat.eqb (fun h => invoke_GotFocus h sender) sender hs
  | _ => ret tt
  end.

(** A control raising TitleChanged with its new title. *)
Definition Control_raise_TitleChanged (c : nat) (newTitle : hstring) : M unit :=
  hs <- gets TitleChangedHandlers ;;
  raise_to Nat.eqb (fun h => invoke_TitleChanged h newTitle) c hs.

(** ** Pane: Close and NavigateFocus (modelled from the specification) *)

(** Modelled from the spec: the result of Pane::Close. *)
Inductive CloseResult := StillHasSiblings | TreeEmptied.

Definition is_leaf_at (this : PaneId) (t : Pane) : bool :=
  match t with
  | LeafNode i _ _ _ _ => i =? this
  | SplitNode _ _ _ _ _ _ _ => false
  end.

(** Modelled from the spec: the collapse of Pane::Close.  The surviving
    child takes over the slot of the split it was a child of. *)
Definition promote (slot : PaneId) (sibling : Pane) : Pane :=
  match sibling with
  | LeafNode _ p c a sz => LeafNode slot p c a sz
  | SplitNode _ o r a sz f s => SplitNode slot o r a sz f s
  end.

(** Modelled from the spec: the split that owns the leaf [this], if there is
    one. *)
Fixpoint parent_of (this : PaneId) (t : Pane) : option PaneId :=
  match t with
  | LeafNode _ _ _ _ _ => None
  | SplitNode i _ _ _ _ f s =>
      if is_leaf_at this f || is_leaf_at this s then Some i
      else match parent_of this f with
           | Some q => Some q
           | None => parent_of this s
           end
  end.

(** Modelled from the spec: the split above the leaf [this] and that leaf
    are discarded; the sibling is promoted. *)
Fixpoint collapse (this : PaneId) (t : Pane) : Pane :=
  match t with
  | LeafNode _ _ _ _ _ => t
  | SplitNode i o r a sz f s =>
      if is_leaf_at this f then promote i s
      else if is_leaf_at this s then promote i f
      else SplitNode i o r a sz (collapse this f) (collapse this s)
  end.

Fixpoint leftmost (t : Pane) : PaneId :=
  match t with
  | LeafNode i _ _ _ _ => i
  | SplitNode _ _ _ _ _ f _ => leftmost f
  end.

(** Modelled from the spec: the leaf that becomes active in a promoted
    subtree, one that was active within it or, when there is none, its
    leftmost leaf. *)
Definition heir (t : Pane) : PaneId :=
  match active_leaves t with
  | x :: _ => x
  | [] => leftmost t
  end.

Definition close_leaf (this : PaneId) (t : Pane) : Pane :=
  let t' := collapse this t in
  match parent_of this t with
  | Some q =>
      match find_pane q t' with
      | Some promoted => at_slot (heir promoted) SetActive (ClearActive t')
      | None => t'
      end
  | None => t'
  end.

(** Modelled from the spec: clearing [isActive] across the whole tree, as the
    structural operations do before they mark the new active leaf. *)
Definition Tree_ClearActive : M unit :=
  modify (fun w => with_tree (option_map ClearActive (tree w)) w).

(** Modelled from the spec: Pane::Close.  Called on a leaf of the tree: the
    only node of the tree empties the tree and raises Closed; a leaf with a
    sibling is collapsed away and one leaf of the promoted sibling becomes the
    active one.  Any other slot has no leaf to close. *)
Definition Pane_Close (this : PaneId) : M CloseResult :=
  node <- gets (deref this) ;;
  match node with
  | Some (LeafNode _ _ _ _ _) =>
      isRoot <- gets (fun w => match tree w with
                               | Some t => pane_id t =? this
                               | None => false
                               end) ;;
      if isRoot then
        modify (with_tree None) ;;
        Pane_raise_Closed this ;;
        ret TreeEmptied
      else
        modify (fun w => with_tree (option_map (close_leaf this) (tree w)) w) ;;
        ret StillHasSiblings
  | _ => ret StillHasSiblings
  end.

Definition SplitState_eqb (a b : SplitState) : bool :=
  match a, b with
  | Vertical, Vertical | Horizontal, Horizontal => true
  | _, _ => false
  end.

(** Modelled from the spec: Left and Right cross the separator of a vertical
    split, Up and Down the separator of a horizontal one; the first child is
    the left or upper one. *)
Definition axis_of (d : Direction) : SplitState :=
  match d with
  | Left | Right => Vertical
  | Up | Down => Horizontal
  end.

Definition towards_second (d : Direction) : bool :=
  match d with
  | Right | Down => true
  | Left | Up => false
  end.

(** Modelled from the spec: descending into the subtree that focus moves
    into, at a split across the direction of the move to the child next to the
    edge we come from, at any other split to the first child. *)
Fixpoint entry_leaf (d : Direction) (t : Pane) : PaneId :=
  match t with
  | LeafNode i _ _ _ _ => i
  | SplitNode _ o _ _ _ f s =>
      if SplitState_eqb o (axis_of d) then
        if towards_second d then entry_leaf d f else entry_leaf d s
      else entry_leaf d f
  end.

Inductive NavResult :=
| NoActive            (* the subtree holds no active leaf *)
| AtEdge              (* it holds one, with nothing beyond it in the subtree *)
| Target (p : PaneId) (* the leaf that focus moves to *).

(** Modelled from the spec: the nearest split above the active leaf that
    lies across the direction and has its other child on the far side decides
    the target. *)
Fixpoint navigate (d : Direction) (t : Pane) : NavResult :=
  match t with
  | LeafNode _ _ _ a _ => if a then AtEdge else NoActive
  | SplitNode _ o _ _ _ f s =>
      match navigate d f with
      | Target x => Target x
      | AtEdge =>
          if SplitState_eqb o (axis_of d) && towards_second d
          then Target (entry_leaf d s) else AtEdge
      | NoActive =>
          match navigate d s with
          | Target x => Target x
          | AtEdge =>
              if SplitState_eqb o (axis_of d) && negb (towards_second d)
              then Target (entry_leaf d f) else AtEdge
          | NoActive => NoActive
          end
      end
  end.

(** Modelled from the spec: Pane::NavigateFocus.  The leaf reached becomes
    the active one, the previous flag being cleared first; nothing changes
    when the active leaf is at the edge. *)
Definition Pane_NavigateFocus (this : PaneId) (d : Direction) : M bool :=
  node <- gets (deref this) ;;
  match node with
  | Some t =>
      match navigate d t with
      | Target x => Tree_ClearActive ;; Pane_SetActive x ;; ret true
      | _ => ret false
      end
  | None => ret false
  end.

(** ** Tab: construction and event wiring (Tab.cpp) *)

(** [std::make_shared<Pane>(profile, control, true)] for the root: the new
    leaf is the whole tree. *)
Definition make_shared_root (profile : GUID) (control : TermControl)
                            (lastFocused : bool) : M PaneId :=
  n <- gets nextId ;;
  modify (with_nextId (S n)) ;;
  modify (with_tree (Some (Pane_new n profile control lastFocused))) ;;
  ret n.

(** [pane->Closed(handler)], [pane->GotFocus(handler)] and
    [control.TitleChanged(handler)] append to the event's registrations. *)
Definition Pane_Closed (this : PaneId) (h : ClosedHandler) : M unit :=
  modify (fun w => mkWorld (tree w) (nextId w) (Title w) (ClosedHandlers w ++ [(this, h)])
                           (GotFocusHandlers w) (TitleChangedHandlers w) (dispatcher w)
                           (trace w) (tabAlive w) (tab w)).

Definition Pane_GotFocus (this : PaneId) (h : GotFocusHandler) : M unit :=
  modify (fun w => with_GotFocusHandlers (GotFocusHandlers w ++ [(this, h)]) w).

Definition Control_TitleChanged (c : nat) (h : TitleChangedHandler) : M unit :=
  modify (fun w => with_TitleChangedHandlers (TitleChangedHandlers w ++ [(c, h)]) w).

(** [_tabViewItem = TabViewItem{};] *)
Definition Tab__MakeTabViewItem : M unit :=
  modify (fun w => with_tab (set_tabViewItem (mkTabViewItem None None) (tab w)) w).

Definition Tab_ctor (profile : GUID) (control : TermControl) : M unit :=
  rootPane <- make_shared_root profile control true ;;
  modify (fun w => with_tab (mkTab rootPane (_activePane (tab w)) (_focused (tab w))
                                   (_lastIconPath (tab w)) (_tabViewItem (tab w))) w) ;;
  Pane_Closed rootPane Tab_ctor_lambda ;;
  rootPane' <- this_rootPane ;;
  modify (fun w => with_tab (set_activePane rootPane' (tab w)) w) ;;
  Tab__MakeTabViewItem.

(** The world before the constructor body ran: no tree, nothing registered,
    the members value-initialised, and an owner holding the Tab.  The two
    [shared_ptr] members are null, that is, they name no pane.  No slot holds
    a pane yet; the members start at slot 1, which is not the slot the
    constructor is about to take from the counter, so that what the
    constructor assigns can be told from what was there before. *)
Definition before_ctor (titles : nat -> hstring) : World :=
  mkWorld None 0 titles [] [] [] [] [] true
          (mkTab 1 1 false EmptyString (mkTabViewItem None None)).

Definition new_Tab (titles : nat -> hstring) (profile : GUID) (control : TermControl) : World :=
  world_of (Tab_ctor profile control (before_ctor titles)).

(** A null control cannot be subscribed to: the call faults. *)
Definition Tab__AttachEventHandlersToControl (control : TermControl) : M unit :=
  match control with
  | Some c => Control_TitleChanged c Tab_AttachEventHandlersToControl_lambda
  | None => fault
  end.

(** [pane->GotFocus(...)] dereferences [pane]: a null pointer faults. *)
Definition Tab__AttachEventHandlersToPane (pane : PanePtr) : M unit :=
  match pane with
  | Some p => Pane_GotFocus p Tab_AttachEventHandlersToPane_lambda
  | None => fault
  end.

Definition Tab_BindEventHandlers (control : TermControl) : M unit :=
  rootPane <- this_rootPane ;;
  Tab__AttachEventHandlersToPane (Some rootPane) ;;
  Tab__AttachEventHandlersToControl control.

Definition Tab_ResizeContent (newSize : Size) : M unit :=
  rootPane <- this_rootPane ;;
  Pane_ResizeContent rootPane newSize.

Definition Tab_NavigateFocus (direction : Direction) : M unit :=
  rootPane <- this_rootPane ;;
  _ <- Pane_NavigateFocus rootPane direction ;;
  ret tt.

Definition Tab_ClosePane : M unit :=
  activePane <- this_activePane ;;
  _ <- Pane_Close activePane ;;
  ret tt.

(** ** Splitting *)

Section Splitting.

(** Modelled from the spec: the minimum usable size of a pane, a width and a
    height threshold.  Its value is not given, so it is a parameter. *)
Variable MinimumSize : Size.

(** Modelled from the spec: whether both children stay at or above the
    minimum when [sz] is divided by a split of the given orientation at the
    default ratio. *)
Definition fits (splitType : SplitState) (sz : Size) : bool :=
  let sizes := child_sizes splitType (1 # 2) sz in
  Qle_bool (axis splitType MinimumSize) (axis splitType (fst sizes))
  && Qle_bool (axis splitType MinimumSize) (axis splitType (snd sizes)).




(** Modelled from the spec: Pane::Split.  Valid on a leaf that can be split:
    its slot then holds a split at ratio 1/2 over a fresh leaf with the
    original content and a fresh leaf with the new content, both with their
    size allocated, and the leaf of the new content is the active one.
    Otherwise nothing is changed and the two pointers returned are null. *)
Definition Pane_Split (this : PaneId) (splitType : SplitState)
                      (profile : GUID) (control : TermControl)
  : M (PanePtr * PanePtr) :=
  node <- gets (deref this) ;;
  match node with
  | Some (LeafNode i p c _ sz) =>
      if fits splitType sz then
        n <- gets nextId ;;
        modify (with_nextId (S (S n))) ;;
        call_at this (fun _ =>
          SplitNode i splitType (1 # 2) false sz
            (LeafNode n p c false (fst (child_sizes splitType (1 # 2) sz)))
            (LeafNode (S n) profile control false (snd (child_sizes splitType (1 # 2) sz)))) ;;
        Tree_ClearActive ;;
        Pane_SetActive (S n) ;;
        ret (Some n, Some (S n))
      else ret (None, None)
  | _ => ret (None, None)
  end.

(** ** Tab: splitting (Tab.cpp) *)


Definition Tab_SplitPane (splitType : SplitState) (profile : GUID)
                         (control : TermControl) : M unit :=
  activePane <- this_activePane ;;
  panes <- Pane_Split activePane splitType profile control ;;
  Tab__AttachEventHandlersToControl control ;;
  Tab__AttachEventHandlersToPane (fst panes) ;;
  Tab__AttachEventHandlersToPane (snd panes).

(** ** Sequences of calls and events *)

(** What a sequence is made of: the calls that change the Tab, its tree or
    its registrations, the two events the Tab subscribes to with a
    [weak_ptr], and a run of the dispatcher.  [SetTabText] and [Scroll] as
    calls of their own and a pane raising Closed by itself are added by
    [Activity] further down. *)
Inductive Mutation :=
| CallBindEventHandlers (control : TermControl)
| CallSplitPane (splitType : SplitState) (profile : GUID) (control : TermControl)
| CallClosePane
| CallNavigateFocus (direction : Direction)
| CallResizeContent (newSize : Size)
| CallSetFocused (focused : bool)
| CallUpdateIcon (iconPath : hstring)
| EventGotFocus (sender : PaneId)
| EventTitleChanged (c : nat) (newTitle : hstring)
| EventDispatch.

Definition exec (m : Mutation) : M unit :=
  match m with
  | CallBindEventHandlers control => Tab_BindEventHandlers control
  | CallSplitPane splitType profile control => Tab_SplitPane splitType profile control
  | CallClosePane => Tab_ClosePane
  | CallNavigateFocus direction => Tab_NavigateFocus direction
  | CallResizeContent newSize => Tab_ResizeContent newSize
  | CallSetFocused focused => Tab_SetFocused focused
  | CallUpdateIcon iconPath => Tab_UpdateIcon iconPath
  | EventGotFocus sender => Pane_raise_GotFocus sender
  | EventTitleChanged c newTitle => Control_raise_TitleChanged c newTitle
  | EventDispatch => Dispatcher_drain
  end.

(** A fault ends the run. *)
Fixpoint run (ms : list Mutation) : M unit :=
  match ms with
  | [] => ret tt
  | m :: ms' => exec m ;; run ms'
  end.

End Splitting.

(** ** Vocabulary of the properties *)

(** The control held in slot [this], null when the slot holds no leaf. *)
Definition control_at (this : PaneId) (t : option Pane) : TermControl :=
  match t with
  | Some t => match find_pane this t with
              | Some (LeafNode _ _ c _ _) => c
              | _ => None
              end
  | None => None
  end.

Definition profile_at (this : PaneId) (t : option Pane) : option GUID :=
  match t with
  | Some t => match find_pane this t with
              | Some (LeafNode _ p _ _ _) => Some p
              | _ => None
              end
  | None => None
  end.

Definition title_at (this : PaneId) (w : World) : hstring :=
  match control_at this (tree w) with
  | Some c => Title w c
  | None => EmptyString
  end.

(** The tree after the lambda ran its body: cleared from the root pane
    down, then marked at the sender. *)
Definition marked (root sender : PaneId) (t : option Pane) : option Pane :=
  option_map (at_slot sender SetActive) (option_map (at_slot root ClearActive) t).

(** The world after the lambda ran its body. *)
Definition focus_moved (sender : PaneId) (w : World) : World :=
  mkWorld (marked (_rootPane (tab w)) sender (tree w))
          (nextId w) (Title w) (ClosedHandlers w) (GotFocusHandlers w)
          (TitleChangedHandlers w)
          (dispatcher w ++ [SetHeaderTask (title_at sender w)])
          (trace w ++ [RunAsync (SetHeaderTask (title_at sender w)); ActivePaneChanged])
          (tabAlive w)
          (set_activePane sender (tab w)).

(** The shape of a tree is in order when its root sits in the slot the Tab
    holds as [_rootPane], no slot occurs twice, and every slot was handed out
    by the counter. *)
Definition shape_inv (t : Pane) (next root : PaneId) : Prop :=
  pane_id t = root /\ NoDup (slots t) /\ (forall i, In i (slots t) -> i < next).

(** A tree is in order when its shape is and exactly one leaf is active.
    The empty tree is in order. *)
Definition tree_inv (t : option Pane) (next root : PaneId) : Prop :=
  match t with
  | None => True
  | Some t => shape_inv t next root /\ List.length (active_leaves t) = 1
  end.

Definition tree_ok (w : World) : Prop :=
  tree_inv (tree w) (nextId w) (_rootPane (tab w)).

(** Whenever the tree is non-empty exactly one leaf has [isActive] set. *)
Definition single_active (w : World) : Prop :=
  match tree w with
  | None => True
  | Some t => List.length (active_leaves t) = 1
  end.

(** The tree is in order and, if there is one, [sender] is one of its leaves. *)
Definition ok_with_leaf (sender : PaneId) (w : World) : Prop :=
  tree_ok w /\ forall t, tree w = Some t -> In sender (leaves t).

(** [keeps I m]: from a world with [I], [m] ends in a world with [I],
    whether it returns or faults. *)
Definition keeps {A} (I : World -> Prop) (m : M A) : Prop :=
  forall w, I w -> I (world_of (m w)).

(** What the dispatcher lambdas leave alone. *)
Definition same_but_item (w w' : World) : Prop :=
  tree w' = tree w /\ nextId w' = nextId w /\ Title w' = Title w /\
  ClosedHandlers w' = ClosedHandlers w /\ GotFocusHandlers w' = GotFocusHandlers w /\
  TitleChangedHandlers w' = TitleChangedHandlers w /\
  dispatcher w' = dispatcher w /\ trace w' = trace w /\
  tabAlive w' = tabAlive w /\
  _rootPane (tab w') = _rootPane (tab w) /\ _activePane (tab w') = _activePane (tab w) /\
  _focused (tab w') = _focused (tab w) /\ _lastIconPath (tab w') = _lastIconPath (tab w).

(** The world after [k] header updates with the text [text] were queued. *)
Definition queued (k : nat) (text : hstring) (w : World) : World :=
  with_trace (trace w ++ repeat (RunAsync (SetHeaderTask text)) k)
    (with_dispatcher (dispatcher w ++ repeat (SetHeaderTask text) k) w).

(** How many lambdas are registered on the control [c]. *)
Definition registrations (c : nat) (hs : list (nat * TitleChangedHandler)) : nat :=
  List.length (filter (fun kh => fst kh =? c) hs).

Definition subscribed_GotFocus (w : World) (p : PaneId) : Prop :=
  exists h, In (p, h) (GotFocusHandlers w).

Definition subscribed_Closed (w : World) (p : PaneId) : Prop :=
  exists h, In (p, h) (ClosedHandlers w).

Definition is_Closed (e : Effect) : bool :=
  match e with Closed => true | _ => false end.

(** ** Concrete runs *)

Definition cmd_titles : nat -> hstring :=
  fun c => match c with 0 => "cmd"%string | 1 => "pwsh"%string | _ => "wsl"%string end.

Definition one_by_one : Size := mkSize 1 1.

(** A Tab around control 0, bound, and laid out in 80 by 24. *)
Definition tab_A : World :=
  world_of (run one_by_one
              [CallBindEventHandlers (Some 0); CallResizeContent (mkSize 80 24)]
              (new_Tab cmd_titles 7%N (Some 0))).

(** The same Tab after control 1 was split in to the right. *)
Definition tab_AB : World :=
  world_of (Tab_SplitPane one_by_one Vertical 8%N (Some 1) tab_A).

(** The same Tab once the new pane has reported that it got focus. *)
Definition tab_AB_focused : World :=
  world_of (Pane_raise_GotFocus 2 tab_AB).

Definition scenario : list Mutation :=
  [CallBindEventHandlers (Some 0); CallResizeContent (mkSize 80 24);
   CallSplitPane Vertical 8%N (Some 1); EventGotFocus 2;
   CallNavigateFocus Left; EventGotFocus 1;
   CallSplitPane Horizontal 9%N (Some 2); EventGotFocus 4;
   CallClosePane; EventGotFocus 1; CallClosePane; EventGotFocus 0;
   CallClosePane; EventDispatch].

(** ** More of Tab.cpp, and the vocabulary of its properties *)

(** [return _tabViewItem;] *)
Definition Tab_GetTabViewItem : M TabViewItem :=
  gets (fun w => _tabViewItem (tab w)).

(** The owner lets go of the Tab: from then on no [weak_ptr<Tab>] locks. *)
Definition Owner_releases (w : World) : World :=
  mkWorld (tree w) (nextId w) (Title w) (ClosedHandlers w) (GotFocusHandlers w)
          (TitleChangedHandlers w) (dispatcher w) (trace w) false (tab w).

(** The same call made for one argument after the other. *)
Fixpoint calls {A} (f : A -> M unit) (xs : list A) : M unit :=
  match xs with
  | [] => ret tt
  | x :: xs' => f x ;; calls f xs'
  end.

(** Whether the lambda of [_AttachEventHandlersToPane] is registered on the
    pane [p]. *)
Definition listens_to (p : PaneId) (w : World) : bool :=
  existsb (fun kh => fst kh =? p) (GotFocusHandlers w).

Definition holds_leaf (p : PaneId) (w : World) : bool :=
  match deref p w with
  | Some t => is_leaf t
  | None => false
  end.

(** Whether a GotFocus raised by [sender] gets past the guards of the
    lambda: a leaf with the lambda registered, a Tab that is alive, and a
    sender that is not the tracked active pane. *)
Definition focus_moves (sender : PaneId) (w : World) : bool :=
  holds_leaf sender w && listens_to sender w && tabAlive w
  && negb (sender =? _activePane (tab w)).

(** [control.Dispatcher()] is called on whatever
    [GetActiveTerminalControl] gave, with no test: a null control faults.
    Otherwise the lambda, with its copies of the control and of [delta], is
    handed to the control's dispatcher. *)
Definition Tab_Scroll (delta : Z) : M unit :=
  control <- Tab_GetActiveTerminalControl ;;
  match control with
  | Some c => emit (RunAsyncScroll c delta)
  | None => fault
  end.

(** What can happen to a Tab, as far as Tab.cpp and the model of Pane
    determine it: the calls and events of [Mutation], the two further public
    methods [SetTabText] and [Scroll], and a pane that raises its Closed
    event for a reason of its own.  [ResizePane], [UpdateSettings] and
    [GetRootElement] are not among them: each only passes its arguments on to
    the Pane method of the same name. *)
Inductive Activity :=
| Listed (m : Mutation)
| CallSetTabText (text : hstring)
| CallScroll (delta : Z)
| EventClosed (pane : PaneId).

Definition perform (MinimumSize : Size) (a : Activity) : M unit :=
  match a with
  | Listed m => exec MinimumSize m
  | CallSetTabText text => Tab_SetTabText text
  | CallScroll delta => Tab_Scroll delta
  | EventClosed pane => Pane_raise_Closed pane
  end.

(** [returns_while I m]: from a world with [I], [m] returns, and to a world
    with [I]. *)
Definition returns_while {A} (I : World -> Prop) (m : M A) : Prop :=
  forall w, I w -> exists a w', m w = Ok a w' /\ I w'.

(** Somebody owns the Tab. *)
Definition owned (w : World) : Prop := tabAlive w = true.

(** [appends log P m]: [m] only appends to the list [log] of the world, and
    what it appends satisfies [P]. *)
Definition appends {X A} (log : World -> list X) (P : X -> Prop) (m : M A) : Prop :=
  forall w, exists xs, log (world_of (m w)) = log w ++ xs /\ Forall P xs.

(** Which activity an effect can come from. *)
Definition comes_from (a : Activity) (e : Effect) : Prop :=
  match e with
  | Focus _ => a = Listed (CallSetFocused true)
  | RunAsync SetIconSourceTask => exists iconPath, a = Listed (CallUpdateIcon iconPath)
  | RunAsync (SetHeaderTask text) =>
      a = CallSetTabText text \/
      (exists sender, a = Listed (EventGotFocus sender)) \/
      (exists c newTitle, a = Listed (EventTitleChanged c newTitle))
  | Closed => a = Listed CallClosePane \/ exists pane, a = EventClosed pane
  | ActivePaneChanged => exists sender, a = Listed (EventGotFocus sender)
  | RunAsyncScroll _ delta => a = CallScroll delta
  end.

(** How often the path changes along a sequence of UpdateIcon calls that
    starts from the path [previous]. *)
Fixpoint changes (previous : hstring) (paths : list hstring) : nat :=
  match paths with
  | [] => 0
  | p :: paths' => (if String.eqb p previous then 0 else 1) + changes p paths'
  end.

(** Which call hands the Tab the control of a TitleChanged registration. *)
Definition handed_over (m : Mutation) (registration : nat * TitleChangedHandler) : Prop :=
  m = CallBindEventHandlers (Some (fst registration)) \/
  exists splitType profile,
    m = CallSplitPane splitType profile (Some (fst registration)).

(** * Properties *)

(** ** Lists without repetition *)

Lemma NoDup_app_inv {A} (l1 l2 : list A) :
  NoDup (l1 ++ l2) ->
  NoDup l1 /\ NoDup l2 /\ (forall a, In a l1 -> ~ In a l2).
Proof.
  induction l1 as [|x l1 IH]; simpl; intros H.
  - repeat split; [constructor | assumption | intros a []].
  - inversion H as [|y l Hx Hl]; subst.
    destruct (IH Hl) as (H1 & H2 & H3).
    repeat split.
    + constructor; [|assumption]. intros Hin. apply Hx, in_or_app. now left.
    + assumption.
    + intros a [<- | Hin] Ha.
      * apply Hx, in_or_app. now right.
      * exact (H3 a Hin Ha).
Qed.

(** ** The tree under flag changes *)

Lemma pane_id_ClearActive t : pane_id (ClearActive t) = pane_id t.
Proof. destruct t; reflexivity. Qed.

Lemma pane_id_SetActive t : pane_id (SetActive t) = pane_id t.
Proof. destruct t; reflexivity. Qed.

Lemma slots_ClearActive t : slots (ClearActive t) = slots t.
Proof. induction t; simpl; congruence. Qed.

Lemma leaves_ClearActive t : leaves (ClearActive t) = leaves t.
Proof. induction t; simpl; congruence. Qed.

Lemma active_leaves_ClearActive t : active_leaves (ClearActive t) = [].
Proof.
  induction t as [| ? ? ? ? ? f IHf s IHs]; simpl; [reflexivity|].
  now rewrite IHf, IHs.
Qed.

Lemma slots_SetActive t : slots (SetActive t) = slots t.
Proof. destruct t; reflexivity. Qed.

Lemma leaves_SetActive t : leaves (SetActive t) = leaves t.
Proof. destruct t; reflexivity. Qed.

Lemma pane_id_ResizeContent sz t : pane_id (ResizeContent sz t) = pane_id t.
Proof. destruct t; reflexivity. Qed.

Lemma slots_ResizeContent t : forall sz, slots (ResizeContent sz t) = slots t.
Proof. induction t; simpl; intros; congruence. Qed.

Lemma active_leaves_ResizeContent t :
  forall sz, active_leaves (ResizeContent sz t) = active_leaves t.
Proof. induction t; simpl; intros; congruence. Qed.

Lemma pane_id_in_slots t : In (pane_id t) (slots t).
Proof. destruct t; simpl; now left. Qed.

Lemma leaves_in_slots t : forall x, In x (leaves t) -> In x (slots t).
Proof.
  induction t as [| i ? ? ? ? f IHf s IHs]; simpl; intros x H; [assumption|].
  right. apply in_or_app. apply in_app_or in H. destruct H; [left | right]; auto.
Qed.

(** *** Methods called through a pointer *)

Section AtSlot.

Variable this : PaneId.
Variable m : Pane -> Pane.

Lemma at_slot_root t : pane_id t = this -> at_slot this m t = m t.
Proof.
  intros H. destruct t; simpl in *; subst; now rewrite Nat.eqb_refl.
Qed.

Lemma at_slot_absent t : ~ In this (slots t) -> at_slot this m t = t.
Proof.
  induction t as [| i o r a sz f IHf s IHs]; simpl; intros H.
  - destruct (Nat.eqb_spec slot this); [|reflexivity]. exfalso. auto.
  - destruct (Nat.eqb_spec i this); [exfalso; auto|].
    rewrite IHf, IHs; [reflexivity| |]; intros Hin; apply H; right;
      apply in_or_app; auto.
Qed.

Lemma at_slot_pane_id t :
  (forall p, pane_id (m p) = pane_id p) -> pane_id (at_slot this m t) = pane_id t.
Proof.
  intros Hm. destruct t; simpl; destruct (_ =? _); auto.
Qed.

Lemma at_slot_slots t :
  (forall p, slots (m p) = slots p) -> slots (at_slot this m t) = slots t.
Proof.
  intros Hm. induction t as [| i o r a sz f IHf s IHs]; simpl.
  - destruct (_ =? _); auto.
  - destruct (_ =? _); [apply Hm|]. simpl. now rewrite IHf, IHs.
Qed.

Lemma at_slot_leaves t :
  (forall p, leaves (m p) = leaves p) -> leaves (at_slot this m t) = leaves t.
Proof.
  intros Hm. induction t as [| i o r a sz f IHf s IHs]; simpl.
  - destruct (_ =? _); auto.
  - destruct (_ =? _); [apply Hm|]. simpl. now rewrite IHf, IHs.
Qed.

Lemma at_slot_active_leaves t :
  (forall p, active_leaves (m p) = active_leaves p) ->
  active_leaves (at_slot this m t) = active_leaves t.
Proof.
  intros Hm. induction t as [| i o r a sz f IHf s IHs]; simpl.
  - destruct (_ =? _); auto.
  - destruct (_ =? _); [apply Hm|]. simpl. now rewrite IHf, IHs.
Qed.

End AtSlot.

(** Marking one leaf of a tree in which no leaf is marked leaves exactly
    that leaf marked. *)
Lemma active_leaves_set t :
  forall x, NoDup (slots t) -> In x (leaves t) -> active_leaves t = [] ->
            active_leaves (at_slot x SetActive t) = [x].
Proof.
  induction t as [i p c a sz | i o r a sz f IHf s IHs]; simpl; intros x Hnd Hin Hnone.
  - destruct Hin as [-> | []]. now rewrite Nat.eqb_refl.
  - inversion Hnd as [| ? ? Hi Hfs]; subst.
    apply NoDup_app_inv in Hfs as (Hf & Hs & Hdisj).
    apply app_eq_nil in Hnone as [Hnf Hns].
    assert (Hx : In x (slots f ++ slots s)).
    { apply in_or_app. apply in_app_or in Hin.
      destruct Hin; [left | right]; now apply leaves_in_slots. }
    destruct (Nat.eqb_spec i x) as [-> | _]; [contradiction|]. simpl.
    apply in_app_or in Hin. destruct Hin as [Hin | Hin].
    + rewrite (at_slot_absent x SetActive s).
      * now rewrite IHf, Hns.
      * apply Hdisj. now apply leaves_in_slots.
    + rewrite (at_slot_absent x SetActive f).
      * now rewrite IHs, Hnf.
      * intros Hxf. apply (Hdisj x Hxf). now apply leaves_in_slots.
Qed.

(** Clearing the whole tree and then marking one of its leaves. *)
Lemma clear_then_set t x :
  NoDup (slots t) -> In x (leaves t) ->
  active_leaves (at_slot x SetActive (ClearActive t)) = [x].
Proof.
  intros Hnd Hin. apply active_leaves_set.
  - now rewrite slots_ClearActive.
  - now rewrite leaves_ClearActive.
  - apply active_leaves_ClearActive.
Qed.

Lemma find_pane_id t : forall x p, find_pane x t = Some p -> pane_id p = x.
Proof.
  induction t as [i ? ? ? ? | i o r a sz f IHf s IHs]; simpl; intros x p H.
  - destruct (Nat.eqb_spec i x); [|discriminate]. now inversion H.
  - destruct (Nat.eqb_spec i x); [now inversion H|].
    destruct (find_pane x f) eqn:E; [inversion H; subst; eauto | eauto].
Qed.

Lemma find_pane_leaves t :
  forall x p, find_pane x t = Some p -> incl (leaves p) (leaves t).
Proof.
  induction t as [i ? ? ? ? | i o r a sz f IHf s IHs]; simpl; intros x p H.
  - destruct (_ =? _); [|discriminate]. inversion H. apply incl_refl.
  - destruct (_ =? _); [inversion H; apply incl_refl|].
    destruct (find_pane x f) eqn:E.
    + inversion H; subst. apply incl_appl. eauto.
    + apply incl_appr. eauto.
Qed.

Lemma find_pane_leaf t x p :
  find_pane x t = Some p -> is_leaf p = true -> In x (leaves t).
Proof.
  intros H Hl. apply (find_pane_leaves t x p H).
  apply find_pane_id in H. destruct p; [|discriminate]. simpl in *. now left.
Qed.

(** ** The tree under Close *)

Lemma slots_promote i t : slots (promote i t) = i :: tl (slots t).
Proof. destruct t; reflexivity. Qed.

Lemma pane_id_promote i t : pane_id (promote i t) = i.
Proof. destruct t; reflexivity. Qed.

Lemma in_tl_slots t x : In x (tl (slots t)) -> In x (slots t).
Proof. destruct t; simpl; auto. Qed.

Lemma NoDup_tl_slots t : NoDup (slots t) -> NoDup (tl (slots t)).
Proof. destruct t; simpl; intros H; [constructor | now inversion H]. Qed.

Lemma pane_id_collapse x t : pane_id (collapse x t) = pane_id t.
Proof.
  destruct t as [| i o r a sz f s]; simpl; [reflexivity|].
  destruct (is_leaf_at x f); [apply pane_id_promote|].
  destruct (is_leaf_at x s); [apply pane_id_promote | reflexivity].
Qed.

Lemma slots_collapse_incl x t : incl (slots (collapse x t)) (slots t).
Proof.
  induction t as [| i o r a sz f IHf s IHs]; simpl; [apply incl_refl|].
  destruct (is_leaf_at x f); [|destruct (is_leaf_at x s)].
  - rewrite slots_promote. intros y [<- | Hy]; [now left|].
    right. apply in_or_app. right. now apply in_tl_slots.
  - rewrite slots_promote. intros y [<- | Hy]; [now left|].
    right. apply in_or_app. left. now apply in_tl_slots.
  - simpl. intros y [<- | Hy]; [now left|]. right.
    apply in_or_app. apply in_app_or in Hy. destruct Hy; [left | right]; auto.
Qed.

Lemma NoDup_slots_collapse x t : NoDup (slots t) -> NoDup (slots (collapse x t)).
Proof.
  induction t as [| i o r a sz f IHf s IHs]; simpl; intros H; [assumption|].
  inversion H as [| ? ? Hi Hfs]; subst.
  pose proof (NoDup_app_inv _ _ Hfs) as (Hf & Hs & Hdisj).
  destruct (is_leaf_at x f); [|destruct (is_leaf_at x s)].
  - rewrite slots_promote. constructor; [|now apply NoDup_tl_slots].
    intros Hin. apply Hi, in_or_app. right. now apply in_tl_slots.
  - rewrite slots_promote. constructor; [|now apply NoDup_tl_slots].
    intros Hin. apply Hi, in_or_app. left. now apply in_tl_slots.
  - simpl. constructor.
    + intros Hin. apply Hi. apply in_or_app. apply in_app_or in Hin.
      destruct Hin as [Hin | Hin]; [left | right]; eapply slots_collapse_incl; eauto.
    + apply NoDup_app; auto.
      intros y Hy1 Hy2. apply (Hdisj y); eapply slots_collapse_incl; eauto.
Qed.

Lemma collapse_no_parent x t : parent_of x t = None -> collapse x t = t.
Proof.
  induction t as [| i o r a sz f IHf s IHs]; simpl; intros H; [reflexivity|].
  destruct (is_leaf_at x f); [discriminate|].
  destruct (is_leaf_at x s); [discriminate|]. simpl in H.
  destruct (parent_of x f); [discriminate|]. now rewrite IHf, IHs.
Qed.

Lemma find_pane_root t : find_pane (pane_id t) t = Some t.
Proof. destruct t; simpl; now rewrite Nat.eqb_refl. Qed.

Lemma find_promoted x t :
  forall q, parent_of x t = Some q -> exists p, find_pane q (collapse x t) = Some p.
Proof.
  induction t as [| i o r a sz f IHf s IHs]; simpl; intros q H; [discriminate|].
  destruct (is_leaf_at x f) eqn:Ef; simpl in H.
  - inversion H; subst. exists (promote q s).
    pose proof (find_pane_root (promote q s)) as E.
    now rewrite pane_id_promote in E.
  - destruct (is_leaf_at x s) eqn:Es; simpl in H.
    + inversion H; subst. exists (promote q f).
      pose proof (find_pane_root (promote q f)) as E.
      now rewrite pane_id_promote in E.
    + simpl. destruct (i =? q); [eauto|].
      destruct (parent_of x f) eqn:Ep.
      * inversion H; subst. destruct (IHf q eq_refl) as [p ->]. eauto.
      * destruct (find_pane q (collapse x f)); [eauto|]. apply IHs, H.
Qed.

Lemma active_leaves_incl t : incl (active_leaves t) (leaves t).
Proof.
  induction t as [i ? ? a ? | i o r a sz f IHf s IHs]; simpl.
  - destruct a; [apply incl_refl | intros ? []].
  - apply incl_app; [apply incl_appl | apply incl_appr]; assumption.
Qed.

Lemma leftmost_leaf t : In (leftmost t) (leaves t).
Proof.
  induction t as [| i o r a sz f IHf s IHs]; simpl; [now left|].
  apply in_or_app. now left.
Qed.

Lemma heir_leaf t : In (heir t) (leaves t).
Proof.
  unfold heir. destruct (active_leaves t) as [|x l] eqn:E.
  - apply leftmost_leaf.
  - apply (active_leaves_incl t). rewrite E. now left.
Qed.

(** ** The tree under NavigateFocus *)

Lemma entry_leaf_leaf d t : In (entry_leaf d t) (leaves t).
Proof.
  induction t as [| i o r a sz f IHf s IHs]; simpl; [now left|].
  apply in_or_app.
  destruct (SplitState_eqb o (axis_of d)); [destruct (towards_second d)|]; auto.
Qed.

Lemma navigate_leaf d t : forall x, navigate d t = Target x -> In x (leaves t).
Proof.
  induction t as [i ? ? a ? | i o r a sz f IHf s IHs]; simpl; intros x H.
  - destruct a; discriminate.
  - apply in_or_app.
    destruct (navigate d f) as [| |y].
    + destruct (navigate d s) as [| |y]; [discriminate| |].
      * destruct (_ && _); [|discriminate]. inversion H. left. apply entry_leaf_leaf.
      * inversion H; subst. right. now apply IHs.
    + destruct (_ && _); [|discriminate]. inversion H. right. apply entry_leaf_leaf.
    + inversion H; subst. left. now apply IHf.
Qed.

(** ** The tree under Split *)

Lemma find_pane_in_slots t : forall x q, find_pane x t = Some q -> In x (slots t).
Proof.
  induction t as [i ? ? ? ? | i o r a sz f IHf s IHs]; simpl; intros x q H.
  - destruct (Nat.eqb_spec i x); [now left | discriminate].
  - destruct (Nat.eqb_spec i x); [now left|]. right. apply in_or_app.
    destruct (find_pane x f) eqn:E; [left | right]; eauto.
Qed.

Lemma find_pane_none t : forall x, find_pane x t = None -> ~ In x (slots t).
Proof.
  induction t as [i ? ? ? ? | i o r a sz f IHf s IHs]; simpl; intros x H.
  - destruct (Nat.eqb_spec i x); [discriminate|]. intuition.
  - destruct (Nat.eqb_spec i x); [discriminate|].
    destruct (find_pane x f) eqn:E; [discriminate|].
    intros [Hin | Hin]; [auto|]. apply in_app_or in Hin.
    destruct Hin as [Hin | Hin]; [exact (IHf _ E Hin) | exact (IHs _ H Hin)].
Qed.

Section SplitLeaf.

Variables (x n : PaneId) (o : SplitState) (r : Q) (a : bool) (sz sz1 sz2 : Size).
Variables (p1 p2 : GUID) (c1 c2 : TermControl).

Let node := SplitNode x o r a sz (LeafNode n p1 c1 false sz1) (LeafNode (S n) p2 c2 false sz2).

Lemma split_leaf_pane_id t : pane_id (at_slot x (fun _ => node) t) = pane_id t.
Proof.
  destruct t as [i ? ? ? ? | i ? ? ? ? ? ?]; simpl;
    destruct (Nat.eqb_spec i x); subst; reflexivity.
Qed.

Lemma split_leaf_slots_incl t :
  forall y, In y (slots (at_slot x (fun _ => node) t)) ->
            In y (slots t) \/ y = n \/ y = S n.
Proof.
  induction t as [i | i ? ? ? ? f IHf s IHs]; simpl; intros y H.
  - destruct (Nat.eqb_spec i x); simpl in H; subst; intuition.
  - destruct (Nat.eqb_spec i x); simpl in H.
    + subst. intuition.
    + destruct H as [H | H]; [auto|]. apply in_app_or in H.
      destruct H as [H | H]; [apply IHf in H | apply IHs in H];
        destruct H as [H | H]; auto; left; right; apply in_or_app; auto.
Qed.

Lemma split_leaf_NoDup t :
  NoDup (slots t) -> (forall y, In y (slots t) -> y < n) ->
  (forall q, find_pane x t = Some q -> is_leaf q = true) ->
  NoDup (slots (at_slot x (fun _ => node) t)).
Proof.
  induction t as [i | i ? ? ? ? f IHf s IHs]; simpl; intros Hnd Hlt Hleaf.
  - destruct (Nat.eqb_spec i x); [|assumption]. subst. simpl.
    assert (x < n) by (apply Hlt; now left).
    repeat constructor; simpl; intuition lia.
  - destruct (Nat.eqb_spec i x).
    + specialize (Hleaf _ eq_refl). discriminate.
    + inversion Hnd as [| ? ? Hi Hfs]; subst.
      apply NoDup_app_inv in Hfs as (Hf & Hs & Hdisj).
      assert (Hltf : forall y, In y (slots f) -> y < n).
      { intros y Hy. apply Hlt. right. apply in_or_app. now left. }
      assert (Hlts : forall y, In y (slots s) -> y < n).
      { intros y Hy. apply Hlt. right. apply in_or_app. now right. }
      assert (i < n) by (apply Hlt; now left).
      destruct (find_pane x f) as [q|] eqn:Ef.
      * assert (Hxs : ~ In x (slots s)).
        { apply Hdisj. eapply find_pane_in_slots; eauto. }
        rewrite (at_slot_absent x _ s Hxs). simpl. constructor.
        -- intros Hin. apply in_app_or in Hin. destruct Hin as [Hin | Hin].
           ++ apply split_leaf_slots_incl in Hin.
              destruct Hin as [Hin | Hin]; [|lia]. apply Hi, in_or_app. auto.
           ++ apply Hi, in_or_app. auto.
        -- apply NoDup_app; auto.
           intros y Hy Hys. apply split_leaf_slots_incl in Hy.
           destruct Hy as [Hy | Hy]; [exact (Hdisj y Hy Hys)|].
           specialize (Hlts y Hys). lia.
      * rewrite (at_slot_absent x _ f (find_pane_none _ _ Ef)). simpl. constructor.
        -- intros Hin. apply in_app_or in Hin. destruct Hin as [Hin | Hin].
           ++ apply Hi, in_or_app. auto.
           ++ apply split_leaf_slots_incl in Hin.
              destruct Hin as [Hin | Hin]; [|lia]. apply Hi, in_or_app. auto.
        -- apply NoDup_app; auto.
           intros y Hy Hys. apply split_leaf_slots_incl in Hys.
           destruct Hys as [Hys | Hys]; [exact (Hdisj y Hy Hys)|].
           specialize (Hltf y Hy). lia.
Qed.

(** The leaf of the new content is a leaf of the tree. *)
Lemma split_leaf_new_leaf t :
  forall q, find_pane x t = Some q -> is_leaf q = true ->
            In (S n) (leaves (at_slot x (fun _ => node) t)).
Proof.
  induction t as [i | i ? ? ? ? f IHf s IHs]; simpl; intros q Hq Hl.
  - destruct (Nat.eqb_spec i x); [|discriminate]. simpl. auto.
  - destruct (Nat.eqb_spec i x).
    + inversion Hq; subst. discriminate.
    + simpl. apply in_or_app. destruct (find_pane x f) eqn:Ef.
      * left. eapply IHf; eauto.
      * right. eapply IHs; eauto.
Qed.

End SplitLeaf.

(** ** The invariant of the pane tree *)

Lemma tree_ok_single_active w : tree_ok w -> single_active w.
Proof.
  unfold tree_ok, single_active, tree_inv. destruct (tree w); [|trivial]. tauto.
Qed.

Lemma tree_inv_flags t next root x :
  shape_inv t next root -> In x (leaves t) ->
  tree_inv (Some (at_slot x SetActive (ClearActive t))) next root.
Proof.
  intros (Hid & Hnd & Hlt) Hin. unfold tree_inv, shape_inv.
  rewrite at_slot_pane_id by apply pane_id_SetActive.
  rewrite at_slot_slots by apply slots_SetActive.
  rewrite pane_id_ClearActive, slots_ClearActive, clear_then_set by assumption.
  auto.
Qed.

Lemma tree_inv_resize t next root this sz :
  tree_inv (Some t) next root ->
  tree_inv (Some (at_slot this (ResizeContent sz) t)) next root.
Proof.
  intros ((Hid & Hnd & Hlt) & Hone). unfold tree_inv, shape_inv.
  rewrite at_slot_pane_id by (intros; apply pane_id_ResizeContent).
  rewrite at_slot_slots by (intros; apply slots_ResizeContent).
  rewrite at_slot_active_leaves by (intros; apply active_leaves_ResizeContent).
  auto.
Qed.

Lemma shape_inv_collapse t next root this :
  shape_inv t next root -> shape_inv (collapse this t) next root.
Proof.
  intros (Hid & Hnd & Hlt). unfold shape_inv.
  rewrite pane_id_collapse. repeat split; auto.
  - now apply NoDup_slots_collapse.
  - intros i Hi. apply Hlt. now apply (slots_collapse_incl this t).
Qed.

Lemma tree_inv_close t next root this :
  tree_inv (Some t) next root -> tree_inv (Some (close_leaf this t)) next root.
Proof.
  intros H. unfold close_leaf.
  destruct (parent_of this t) as [q|] eqn:Ep.
  - destruct (find_promoted this t q Ep) as [p Hp]. rewrite Hp.
    apply tree_inv_flags.
    + apply shape_inv_collapse, H.
    + apply (find_pane_leaves _ _ _ Hp). apply heir_leaf.
  - now rewrite collapse_no_parent.
Qed.

Lemma tree_inv_split t next root this o r a sz sz1 sz2 p1 p2 c1 c2 q :
  tree_inv (Some t) next root ->
  find_pane this t = Some q -> is_leaf q = true ->
  tree_inv (Some (at_slot (S next) SetActive (ClearActive
              (at_slot this (fun _ =>
                 SplitNode this o r a sz (LeafNode next p1 c1 false sz1)
                           (LeafNode (S next) p2 c2 false sz2)) t))))
           (S (S next)) root.
Proof.
  intros ((Hid & Hnd & Hlt) & _) Hq Hl.
  apply tree_inv_flags.
  - repeat split.
    + now rewrite split_leaf_pane_id.
    + apply split_leaf_NoDup; auto. intros q' Hq'. congruence.
    + intros i Hi. apply split_leaf_slots_incl in Hi.
      destruct Hi as [Hi | [-> | ->]]; [apply Hlt in Hi|..]; lia.
  - eapply split_leaf_new_leaf; eauto.
Qed.

(** ** Calls that keep a property of the world *)

Lemma keeps_ret {A} I (a : A) : keeps I (ret a).
Proof. intros w H. exact H. Qed.

Lemma keeps_gets {A} I (f : World -> A) : keeps I (gets f).
Proof. intros w H. exact H. Qed.

Lemma keeps_fault {A} I : keeps I (@fault A).
Proof. intros w H. exact H. Qed.

Lemma keeps_modify I f : (forall w, I w -> I (f w)) -> keeps I (modify f).
Proof. intros Hf w H. apply Hf, H. Qed.

Lemma keeps_bind {A B} I (m : M A) (k : A -> M B) :
  keeps I m -> (forall a, keeps I (k a)) -> keeps I (bind m k).
Proof.
  intros Hm Hk w H. unfold bind. specialize (Hm w H).
  destruct (m w) as [a w' | w']; simpl in *; [now apply Hk | assumption].
Qed.

(** A value read from the world may be used to reason about what follows. *)
Lemma keeps_gets_bind {A B} I (f : World -> A) (k : A -> M B) :
  (forall w, I w -> I (world_of (k (f w) w))) -> keeps I (bind (gets f) k).
Proof. intros Hk w H. unfold bind, gets. now apply Hk. Qed.

Lemma keeps_raise_to {K H} I (eqb : K -> K -> bool) (invoke : H -> M unit) source hs :
  (forall h, keeps I (invoke h)) -> keeps I (raise_to eqb invoke source hs).
Proof.
  intros Hinv. induction hs as [| [k h] hs IH]; simpl; [apply keeps_ret|].
  apply keeps_bind; [|intros _; exact IH].
  destruct (eqb k source); [apply Hinv | apply keeps_ret].
Qed.

(** ** Every call and every event keeps the tree in order *)

Lemma keeps_emit e : keeps tree_ok (emit e).
Proof. apply keeps_modify. intros w H. exact H. Qed.

Lemma keeps_RunAsync t : keeps tree_ok (Dispatcher_RunAsync t).
Proof.
  unfold Dispatcher_RunAsync. apply keeps_bind; [|intros _; apply keeps_emit].
  apply keeps_modify. intros w H. exact H.
Qed.

Lemma keeps_GetActiveTerminalControl : keeps tree_ok Tab_GetActiveTerminalControl.
Proof. intros w H. exact H. Qed.

Lemma keeps_GetActiveTitle : keeps tree_ok Tab_GetActiveTitle.
Proof.
  unfold Tab_GetActiveTitle. apply keeps_bind; [apply keeps_GetActiveTerminalControl|].
  intros [c|]; [apply keeps_gets | apply keeps_ret].
Qed.

Lemma keeps_SetTabText text : keeps tree_ok (Tab_SetTabText text).
Proof. apply keeps_RunAsync. Qed.

Lemma keeps_SetFocused focused : keeps tree_ok (Tab_SetFocused focused).
Proof.
  unfold Tab_SetFocused, Tab__Focus.
  apply keeps_bind; [apply keeps_modify; intros w H; exact H | intros _].
  apply keeps_bind; [apply keeps_gets | intros b]. destruct b; [|apply keeps_ret].
  apply keeps_bind; [apply keeps_modify; intros w H; exact H | intros _].
  apply keeps_bind; [apply keeps_GetActiveTerminalControl | intros [c|]].
  - apply keeps_emit.
  - apply keeps_ret.
Qed.

Lemma keeps_UpdateIcon iconPath : keeps tree_ok (Tab_UpdateIcon iconPath).
Proof.
  unfold Tab_UpdateIcon. apply keeps_bind; [apply keeps_gets | intros p].
  destruct (String.eqb iconPath p); [apply keeps_ret|].
  apply keeps_bind; [apply keeps_modify; intros w H; exact H | intros _].
  apply keeps_RunAsync.
Qed.

Lemma keeps_run_task t : keeps tree_ok (run_task t).
Proof.
  destruct t; simpl; (apply keeps_bind; [apply keeps_gets | intros b]);
    (destruct b; [apply keeps_modify; intros w H; exact H | apply keeps_ret]).
Qed.

Lemma keeps_drain : keeps tree_ok Dispatcher_drain.
Proof.
  unfold Dispatcher_drain. apply keeps_bind; [apply keeps_gets | intros q].
  apply keeps_bind; [apply keeps_modify; intros w H; exact H | intros _].
  induction q as [|t q IH]; simpl; [apply keeps_ret|].
  apply keeps_bind; [apply keeps_run_task | intros _; exact IH].
Qed.

Lemma keeps_invoke_TitleChanged h newTitle : keeps tree_ok (invoke_TitleChanged h newTitle).
Proof.
  destruct h; simpl. apply keeps_bind; [apply keeps_gets | intros b].
  destruct b; [|apply keeps_ret].
  apply keeps_bind; [apply keeps_GetActiveTitle | intros t; apply keeps_SetTabText].
Qed.

Lemma keeps_raise_TitleChanged c newTitle :
  keeps tree_ok (Control_raise_TitleChanged c newTitle).
Proof.
  unfold Control_raise_TitleChanged. apply keeps_bind; [apply keeps_gets | intros hs].
  apply keeps_raise_to. intros h. apply keeps_invoke_TitleChanged.
Qed.

Lemma keeps_AttachEventHandlersToControl control :
  keeps tree_ok (Tab__AttachEventHandlersToControl control).
Proof.
  destruct control; simpl; [|apply keeps_fault].
  apply keeps_modify. intros w H. exact H.
Qed.

Lemma keeps_AttachEventHandlersToPane pane :
  keeps tree_ok (Tab__AttachEventHandlersToPane pane).
Proof.
  destruct pane; simpl; [|apply keeps_fault].
  apply keeps_modify. intros w H. exact H.
Qed.

Lemma keeps_BindEventHandlers control : keeps tree_ok (Tab_BindEventHandlers control).
Proof.
  unfold Tab_BindEventHandlers. apply keeps_bind; [apply keeps_gets | intros r].
  apply keeps_bind; [apply keeps_AttachEventHandlersToPane | intros _].
  apply keeps_AttachEventHandlersToControl.
Qed.

Lemma keeps_ResizeContent newSize : keeps tree_ok (Tab_ResizeContent newSize).
Proof.
  unfold Tab_ResizeContent. apply keeps_bind; [apply keeps_gets | intros r].
  apply keeps_modify. intros w H. unfold tree_ok in *. simpl.
  destruct (tree w); simpl; [now apply tree_inv_resize | trivial].
Qed.

Lemma keeps_raise_Closed this : keeps tree_ok (Pane_raise_Closed this).
Proof.
  unfold Pane_raise_Closed. apply keeps_bind; [apply keeps_gets | intros hs].
  apply keeps_raise_to. intros []. simpl.
  apply keeps_bind; [apply keeps_gets | intros [|]];
    [apply keeps_emit | apply keeps_fault].
Qed.

Lemma keeps_Close this : keeps tree_ok (Pane_Close this).
Proof.
  unfold Pane_Close. apply keeps_gets_bind. intros w H.
  destruct (deref this w) as [[| ]|]; try exact H.
  unfold bind at 1, gets at 1.
  destruct (match tree w with Some t => pane_id t =? this | None => false end).
  - change (tree_ok (world_of (bind (modify (with_tree None))
              (fun _ => bind (Pane_raise_Closed this) (fun _ => ret TreeEmptied)) w))).
    revert w H. apply keeps_bind; [|intros _].
    + apply keeps_modify. intros w H. exact I.
    + apply keeps_bind; [apply keeps_raise_Closed | intros _; apply keeps_ret].
  - revert H. unfold tree_ok. simpl. destruct (tree w); simpl; [|trivial].
    apply tree_inv_close.
Qed.

Lemma keeps_ClosePane : keeps tree_ok Tab_ClosePane.
Proof.
  unfold Tab_ClosePane. apply keeps_bind; [apply keeps_gets | intros p].
  apply keeps_bind; [apply keeps_Close | intros _; apply keeps_ret].
Qed.

Lemma keeps_NavigateFocus direction : keeps tree_ok (Tab_NavigateFocus direction).
Proof.
  unfold Tab_NavigateFocus. apply keeps_bind; [apply keeps_gets | intros r].
  apply keeps_bind; [|intros _; apply keeps_ret].
  unfold Pane_NavigateFocus. apply keeps_gets_bind. intros w H.
  unfold deref. destruct (tree w) as [t|] eqn:Et; [|exact H].
  destruct (find_pane r t) as [p|] eqn:Ep; [|exact H].
  destruct (navigate direction p) as [| |x] eqn:En; try exact H.
  unfold tree_ok in *. simpl. rewrite Et in *. simpl.
  apply tree_inv_flags; [apply H|].
  apply (find_pane_leaves _ _ _ Ep). eapply navigate_leaf; eauto.
Qed.

(** Unfolding the monad and the record updates of a straight-line body. *)
Ltac unfold_M :=
  cbv [bind gets modify ret fault emit call_at world_of
       this_activePane this_rootPane weakThis_lock Dispatcher_RunAsync
       with_tree with_nextId with_GotFocusHandlers with_TitleChangedHandlers
       with_dispatcher with_trace with_tab
       set_activePane set_focused set_lastIconPath set_tabViewItem] in *;
  cbn [tree nextId Title ClosedHandlers GotFocusHandlers TitleChangedHandlers
       dispatcher trace tabAlive tab
       _rootPane _activePane _focused _lastIconPath _tabViewItem
       Header IconSource fst snd] in *.

(** ** What the GotFocus lambda does *)

(** Two trees that agree once their flags are cleared differ in nothing
    but [isActive]. *)
Lemma ClearActive_idem t : ClearActive (ClearActive t) = ClearActive t.
Proof. induction t; simpl; congruence. Qed.

Lemma ClearActive_SetActive t : ClearActive (SetActive t) = ClearActive t.
Proof. destruct t; reflexivity. Qed.

Lemma ClearActive_at_slot this m t :
  (forall p, ClearActive (m p) = ClearActive p) ->
  ClearActive (at_slot this m t) = ClearActive t.
Proof.
  intros Hm. induction t as [| i o r a sz f IHf s IHs]; simpl.
  - destruct (_ =? _); [apply Hm | reflexivity].
  - destruct (_ =? _); [apply Hm|]. simpl. now rewrite IHf, IHs.
Qed.

Lemma find_pane_ClearActive x t :
  find_pane x (ClearActive t) = option_map ClearActive (find_pane x t).
Proof.
  induction t as [i ? ? ? ? | i o r a sz f IHf s IHs]; simpl.
  - destruct (_ =? _); reflexivity.
  - destruct (_ =? _); [reflexivity|]. rewrite IHf, IHs.
    destruct (find_pane x f); reflexivity.
Qed.

Lemma control_at_ClearActive x t :
  control_at x (Some (ClearActive t)) = control_at x (Some t).
Proof.
  unfold control_at. rewrite find_pane_ClearActive.
  destruct (find_pane x t) as [[]|]; reflexivity.
Qed.

Lemma control_at_flags x t1 t2 :
  ClearActive t1 = ClearActive t2 -> control_at x (Some t1) = control_at x (Some t2).
Proof.
  intros H. rewrite <- (control_at_ClearActive x t1), H. apply control_at_ClearActive.
Qed.

Lemma mark_flags root sender t :
  ClearActive (at_slot sender SetActive (at_slot root ClearActive t)) = ClearActive t.
Proof.
  rewrite ClearActive_at_slot by apply ClearActive_SetActive.
  apply ClearActive_at_slot, ClearActive_idem.
Qed.

Lemma control_at_marked root sender x t :
  control_at x (marked root sender t) = control_at x t.
Proof.
  destruct t as [t|]; [|reflexivity]. apply control_at_flags, mark_flags.
Qed.

Lemma invoke_GotFocus_moves h sender w :
  tabAlive w = true -> sender <> _activePane (tab w) ->
  invoke_GotFocus h sender w = Ok tt (focus_moved sender w).
Proof.
  intros Halive Hne. destruct h. unfold invoke_GotFocus.
  unfold bind at 1, weakThis_lock at 1, gets at 1. rewrite Halive.
  unfold bind at 1, this_activePane at 1, gets at 1.
  apply Nat.eqb_neq in Hne. rewrite Hne. simpl negb. cbv iota.
  unfold focus_moved, title_at.
  rewrite <- (control_at_marked (_rootPane (tab w)) sender sender (tree w)).
  unfold marked. destruct w as [t n ti ch gh th q tr al [r ap fo ip vi]]. simpl in *.
  unfold Pane_ClearActive, Pane_SetActive, Tab_GetActiveTitle, Tab_SetTabText,
    Tab_GetActiveTerminalControl, Pane_GetTerminalControl, deref, control_at.
  unfold_M.
  destruct t as [t|]; simpl; [|now rewrite <- app_assoc].
  destruct (find_pane sender _) as [[? ? [c|] ? ?|]|]; simpl;
    now rewrite <- app_assoc.
Qed.

Lemma invoke_GotFocus_same h sender w :
  sender = _activePane (tab w) -> invoke_GotFocus h sender w = Ok tt w.
Proof.
  intros ->. destruct h. unfold invoke_GotFocus, bind, weakThis_lock, this_activePane, gets.
  destruct (tabAlive w); [|reflexivity]. now rewrite Nat.eqb_refl.
Qed.

Lemma invoke_GotFocus_expired h sender w :
  tabAlive w = false -> invoke_GotFocus h sender w = Ok tt w.
Proof.
  intros H. destruct h. unfold invoke_GotFocus, bind, weakThis_lock, gets. now rewrite H.
Qed.

Lemma marked_whole t sender :
  marked (pane_id t) sender (Some t) = Some (at_slot sender SetActive (ClearActive t)).
Proof. unfold marked. cbn [option_map]. now rewrite (at_slot_root (pane_id t) ClearActive t eq_refl). Qed.

Lemma leaves_marked root sender t :
  leaves (at_slot sender SetActive (at_slot root ClearActive t)) = leaves t.
Proof.
  rewrite at_slot_leaves by apply leaves_SetActive.
  apply at_slot_leaves, leaves_ClearActive.
Qed.

Lemma focus_moved_ok sender w :
  ok_with_leaf sender w -> ok_with_leaf sender (focus_moved sender w).
Proof.
  intros [Hok Hleaf]. unfold ok_with_leaf, tree_ok in *. simpl.
  destruct (tree w) as [t|] eqn:Et; simpl.
  - specialize (Hleaf t eq_refl). destruct Hok as [Hshape _]. split.
    + destruct Hshape as (Hid & Hrest).
      rewrite <- Hid, (at_slot_root (pane_id t) ClearActive t eq_refl).
      apply tree_inv_flags; [|assumption]. now split.
    + intros t' [= <-]. now rewrite leaves_marked.
  - split; [trivial | discriminate].
Qed.

Lemma keeps_invoke_GotFocus h sender :
  keeps (ok_with_leaf sender) (invoke_GotFocus h sender).
Proof.
  intros w H. destruct (tabAlive w) eqn:Ealive.
  - destruct (Nat.eq_dec sender (_activePane (tab w))) as [E | E].
    + now rewrite invoke_GotFocus_same.
    + rewrite invoke_GotFocus_moves by assumption. now apply focus_moved_ok.
  - now rewrite invoke_GotFocus_expired.
Qed.

Lemma keeps_raise_GotFocus sender : keeps tree_ok (Pane_raise_GotFocus sender).
Proof.
  unfold Pane_raise_GotFocus. apply keeps_gets_bind. intros w H.
  destruct (deref sender w) as [[i p c a sz|]|] eqn:Ed; try exact H.
  assert (HJ : ok_with_leaf sender w).
  { split; [assumption|]. intros t Et. unfold deref in Ed. rewrite Et in Ed.
    now apply (find_pane_leaf _ _ _ Ed). }
  assert (K : keeps (ok_with_leaf sender)
                (hs <- gets GotFocusHandlers ;;
                 raise_to Nat.eqb (fun h => invoke_GotFocus h sender) sender hs)).
  { apply keeps_bind; [apply keeps_gets | intros hs].
    apply keeps_raise_to. intros h. apply keeps_invoke_GotFocus. }
  exact (proj1 (K w HJ)).
Qed.

Section Invariant.

Variable MinimumSize : Size.

Lemma keeps_Split this splitType profile control :
  keeps tree_ok (Pane_Split MinimumSize this splitType profile control).
Proof.
  unfold Pane_Split. apply keeps_gets_bind. intros w H.
  destruct (deref this w) as [[i p c a sz|]|] eqn:Ed; try exact H.
  destruct (fits MinimumSize splitType sz); [|exact H].
  unfold deref in Ed. unfold tree_ok in *.
  destruct (tree w) as [t|] eqn:Et; [|discriminate].
  unfold Tree_ClearActive, Pane_SetActive. unfold_M. rewrite Et. simpl.
  pose proof (find_pane_id _ _ _ Ed) as Hi. simpl in Hi. subst i.
  eapply tree_inv_split; eauto.
Qed.

Lemma keeps_SplitPane splitType profile control :
  keeps tree_ok (Tab_SplitPane MinimumSize splitType profile control).
Proof.
  unfold Tab_SplitPane. apply keeps_bind; [apply keeps_gets | intros p].
  apply keeps_bind; [apply keeps_Split | intros panes].
  apply keeps_bind; [apply keeps_AttachEventHandlersToControl | intros _].
  apply keeps_bind; [apply keeps_AttachEventHandlersToPane | intros _].
  apply keeps_AttachEventHandlersToPane.
Qed.

Lemma keeps_exec m : keeps tree_ok (exec MinimumSize m).
Proof.
  destruct m; simpl.
  - apply keeps_BindEventHandlers.
  - apply keeps_SplitPane.
  - apply keeps_ClosePane.
  - apply keeps_NavigateFocus.
  - apply keeps_ResizeContent.
  - apply keeps_SetFocused.
  - apply keeps_UpdateIcon.
  - apply keeps_raise_GotFocus.
  - apply keeps_raise_TitleChanged.
  - apply keeps_drain.
Qed.

Lemma keeps_run ms : keeps tree_ok (run MinimumSize ms).
Proof.
  induction ms as [|m ms IH]; simpl; [apply keeps_ret|].
  apply keeps_bind; [apply keeps_exec | intros _; exact IH].
Qed.

End Invariant.

Lemma new_Tab_ok titles profile control : tree_ok (new_Tab titles profile control).
Proof.
  unfold tree_ok, new_Tab. simpl. repeat split.
  - repeat constructor. intros [].
  - intros i [<- | []]. lia.
Qed.

(** ** The registrations on Closed and [_rootPane] never change after construction *)

(** Solves [keeps I m] for a body that changes nothing [I] looks at. *)
Ltac keeps_frame :=
  repeat match goal with
    | |- keeps _ (ret _) => apply keeps_ret
    | |- keeps _ (gets _) => apply keeps_gets
    | |- keeps _ fault => apply keeps_fault
    | |- keeps _ (raise_to _ _ _ _) => apply keeps_raise_to; intros ?
    | |- keeps _ (bind _ _) => apply keeps_bind; [|intros ?]
    | |- keeps _ (modify _) =>
        apply keeps_modify;
        let w := fresh "w" in let H := fresh "H" in intros w H; exact H
    | |- keeps _ (match ?x with _ => _ end) => destruct x
    end.

Section ClosedRegistrations.

Variable MinimumSize : Size.
Variable registered : list (PaneId * ClosedHandler).
Variable root : PaneId.

Let unchanged (w : World) : Prop :=
  ClosedHandlers w = registered /\ _rootPane (tab w) = root.

Lemma unchanged_run_tasks q : keeps unchanged (run_tasks q).
Proof.
  induction q as [|t q IH]; simpl; [apply keeps_ret|].
  apply keeps_bind; [|intros _; exact IH].
  destruct t; unfold run_task, weakThis_lock; keeps_frame.
Qed.

Lemma unchanged_exec m : keeps unchanged (exec MinimumSize m).
Proof.
  destruct m; simpl.
  - unfold Tab_BindEventHandlers, Tab__AttachEventHandlersToPane,
      Tab__AttachEventHandlersToControl, Pane_GotFocus, Control_TitleChanged,
      this_rootPane.
    keeps_frame.
  - unfold Tab_SplitPane, Pane_Split, Tab__AttachEventHandlersToPane,
      Tab__AttachEventHandlersToControl, Pane_GotFocus, Control_TitleChanged,
      Tree_ClearActive, Pane_SetActive, call_at, this_activePane.
    keeps_frame.
  - unfold Tab_ClosePane, Pane_Close, Pane_raise_Closed, invoke_Closed, emit,
      this_activePane.
    keeps_frame.
  - unfold Tab_NavigateFocus, Pane_NavigateFocus, Tree_ClearActive, Pane_SetActive,
      call_at, this_rootPane.
    keeps_frame.
  - unfold Tab_ResizeContent, Pane_ResizeContent, call_at, this_rootPane. keeps_frame.
  - unfold Tab_SetFocused, Tab__Focus, Tab_IsFocused, Tab_GetActiveTerminalControl,
      Pane_GetTerminalControl, emit, this_activePane.
    keeps_frame.
  - unfold Tab_UpdateIcon, Dispatcher_RunAsync, emit. keeps_frame.
  - unfold Pane_raise_GotFocus, invoke_GotFocus, Pane_ClearActive, Pane_SetActive,
      Tab_GetActiveTitle, Tab_SetTabText, Tab_GetActiveTerminalControl,
      Pane_GetTerminalControl, Dispatcher_RunAsync, call_at, emit, weakThis_lock,
      this_activePane, this_rootPane.
    keeps_frame.
  - unfold Control_raise_TitleChanged, invoke_TitleChanged,
      Tab_GetActiveTitle, Tab_SetTabText, Tab_GetActiveTerminalControl,
      Pane_GetTerminalControl, Dispatcher_RunAsync, emit, weakThis_lock,
      this_activePane.
    keeps_frame.
  - unfold Dispatcher_drain. keeps_frame. apply unchanged_run_tasks.
Qed.

Lemma unchanged_run ms : keeps unchanged (run MinimumSize ms).
Proof.
  induction ms as [|m ms IH]; simpl; [apply keeps_ret|].
  apply keeps_bind; [apply unchanged_exec | intros _; exact IH].
Qed.

End ClosedRegistrations.

(** ** The Tab stays owned

    No call and no event lets go of the Tab. *)

Lemma owned_run_tasks q : keeps owned (run_tasks q).
Proof.
  induction q as [|t q IH]; simpl; [apply keeps_ret|].
  apply keeps_bind; [|intros _; exact IH].
  destruct t; unfold run_task, weakThis_lock; keeps_frame.
Qed.

Lemma owned_exec MinimumSize m : keeps owned (exec MinimumSize m).
Proof.
  destruct m; simpl.
  - unfold Tab_BindEventHandlers, Tab__AttachEventHandlersToPane,
      Tab__AttachEventHandlersToControl, Pane_GotFocus, Control_TitleChanged,
      this_rootPane.
    keeps_frame.
  - unfold Tab_SplitPane, Pane_Split, Tab__AttachEventHandlersToPane,
      Tab__AttachEventHandlersToControl, Pane_GotFocus, Control_TitleChanged,
      Tree_ClearActive, Pane_SetActive, call_at, this_activePane.
    keeps_frame.
  - unfold Tab_ClosePane, Pane_Close, Pane_raise_Closed, invoke_Closed, emit,
      this_activePane.
    keeps_frame.
  - unfold Tab_NavigateFocus, Pane_NavigateFocus, Tree_ClearActive, Pane_SetActive,
      call_at, this_rootPane.
    keeps_frame.
  - unfold Tab_ResizeContent, Pane_ResizeContent, call_at, this_rootPane. keeps_frame.
  - unfold Tab_SetFocused, Tab__Focus, Tab_IsFocused, Tab_GetActiveTerminalControl,
      Pane_GetTerminalControl, emit, this_activePane.
    keeps_frame.
  - unfold Tab_UpdateIcon, Dispatcher_RunAsync, emit. keeps_frame.
  - unfold Pane_raise_GotFocus, invoke_GotFocus, Pane_ClearActive, Pane_SetActive,
      Tab_GetActiveTitle, Tab_SetTabText, Tab_GetActiveTerminalControl,
      Pane_GetTerminalControl, Dispatcher_RunAsync, call_at, emit, weakThis_lock,
      this_activePane, this_rootPane.
    keeps_frame.
  - unfold Control_raise_TitleChanged, invoke_TitleChanged,
      Tab_GetActiveTitle, Tab_SetTabText, Tab_GetActiveTerminalControl,
      Pane_GetTerminalControl, Dispatcher_RunAsync, emit, weakThis_lock,
      this_activePane.
    keeps_frame.
  - unfold Dispatcher_drain. keeps_frame. apply owned_run_tasks.
Qed.

Lemma owned_run MinimumSize ms : keeps owned (run MinimumSize ms).
Proof.
  induction ms as [|m ms IH]; simpl; [apply keeps_ret|].
  apply keeps_bind; [apply owned_exec | intros _; exact IH].
Qed.

(** ** Header text *)

Lemma run_tasks_app q1 q2 w :
  run_tasks (q1 ++ q2) w = bind (run_tasks q1) (fun _ => run_tasks q2) w.
Proof.
  revert w. induction q1 as [|t q1 IH]; intros w; simpl; [reflexivity|].
  unfold bind in *. destruct (run_task t w) as [[] w' | w']; [|reflexivity].
  apply IH.
Qed.

Lemma same_but_item_refl w : same_but_item w w.
Proof. unfold same_but_item. tauto. Qed.

Lemma same_but_item_trans w1 w2 w3 :
  same_but_item w1 w2 -> same_but_item w2 w3 -> same_but_item w1 w3.
Proof. unfold same_but_item. intuition congruence. Qed.

Lemma run_task_returns t w :
  exists w', run_task t w = Ok tt w' /\ same_but_item w w'.
Proof.
  destruct t; unfold run_task; unfold_M; destruct (tabAlive w);
    eexists; (split; [reflexivity|]); unfold same_but_item; simpl; tauto.
Qed.

Lemma run_tasks_returns q :
  forall w, exists w', run_tasks q w = Ok tt w' /\ same_but_item w w'.
Proof.
  induction q as [|t q IH]; intros w; simpl.
  - exists w. split; [reflexivity | apply same_but_item_refl].
  - destruct (run_task_returns t w) as (w1 & E1 & S1).
    destruct (IH w1) as (w2 & E2 & S2).
    exists w2. unfold bind. rewrite E1. split; [assumption|].
    eapply same_but_item_trans; eauto.
Qed.

(** When the queue ends in a header task and the Tab is alive, the header
    ends up as the text of that task. *)
Lemma run_tasks_last_header q text w :
  tabAlive w = true ->
  exists w', run_tasks (q ++ [SetHeaderTask text]) w = Ok tt w' /\
             Header (_tabViewItem (tab w')) = Some text /\
             tree w' = tree w /\ _activePane (tab w') = _activePane (tab w).
Proof.
  intros Halive. rewrite run_tasks_app.
  destruct (run_tasks_returns q w) as (w1 & E1 & S1).
  unfold bind at 1. rewrite E1.
  assert (Halive1 : tabAlive w1 = true).
  { unfold same_but_item in S1. intuition congruence. }
  simpl. unfold_M. rewrite Halive1. eexists. split; [reflexivity|]. simpl.
  unfold same_but_item in S1. tauto.
Qed.

(** ** The TitleChanged lambda *)

Lemma queued_0 text w : queued 0 text w = w.
Proof. destruct w. unfold queued. unfold_M. simpl. now rewrite !app_nil_r. Qed.

Lemma queued_S k text w : queued k text (queued 1 text w) = queued (S k) text w.
Proof. unfold queued. unfold_M. simpl. now rewrite <- !app_assoc. Qed.

Lemma invoke_TitleChanged_alive h newTitle w :
  tabAlive w = true ->
  invoke_TitleChanged h newTitle w
    = Ok tt (queued 1 (title_at (_activePane (tab w)) w) w).
Proof.
  intros Halive. destruct h. unfold invoke_TitleChanged, Tab_GetActiveTitle,
    Tab_SetTabText, Tab_GetActiveTerminalControl, Pane_GetTerminalControl, deref,
    title_at, control_at, queued.
  destruct w as [t n ti ch gh th q tr al [r ap fo ip vi]]. simpl in Halive. subst al.
  unfold_M. destruct t as [t|]; [|reflexivity].
  destruct (find_pane _ t) as [[? ? [c|] ? ?|]|]; reflexivity.
Qed.

Lemma raise_TitleChanged_queues c newTitle hs :
  forall w, tabAlive w = true ->
    raise_to Nat.eqb (fun h => invoke_TitleChanged h newTitle) c hs w
    = Ok tt (queued (registrations c hs) (title_at (_activePane (tab w)) w) w).
Proof.
  induction hs as [| [k h] hs IH]; intros w Halive; simpl.
  - now rewrite queued_0.
  - unfold registrations. simpl. unfold bind at 1.
    destruct (k =? c).
    + rewrite invoke_TitleChanged_alive by assumption.
      rewrite IH by exact Halive. simpl. f_equal. apply queued_S.
    + unfold ret. now rewrite IH.
Qed.

Lemma registrations_pos c h hs : In (c, h) hs -> exists k, registrations c hs = S k.
Proof.
  unfold registrations. induction hs as [| [k' h'] hs IH]; simpl; intros H; [contradiction|].
  destruct H as [E | H].
  - inversion E; subst. rewrite Nat.eqb_refl. simpl. eauto.
  - destruct (k' =? c); simpl; eauto.
Qed.

(** ** What the Tab subscribes to *)

Lemma Pane_Split_registrations MinimumSize this splitType profile control w r w1 :
  Pane_Split MinimumSize this splitType profile control w = Ok r w1 ->
  GotFocusHandlers w1 = GotFocusHandlers w /\
  ClosedHandlers w1 = ClosedHandlers w /\
  TitleChangedHandlers w1 = TitleChangedHandlers w /\
  tab w1 = tab w.
Proof.
  unfold Pane_Split, Tree_ClearActive, Pane_SetActive. unfold_M.
  destruct (deref this w) as [[i p c a sz|]|].
  - destruct (fits MinimumSize splitType sz); intros H; inversion H; subst; simpl; auto.
  - intros H; inversion H; subst; auto.
  - intros H; inversion H; subst; auto.
Qed.

(** ** Properties of the Tab *)

(** C1: after every sequence of calls and events on a constructed Tab, a
    non-empty tree has exactly one active leaf; and from any tree without
    repeated slots, however its flags stand, the GotFocus lambda run for a
    leaf that is not the tracked active pane clears every flag of the tree and
    then marks that leaf, which is then the one active leaf. *)
Theorem C1_exactly_one_active_leaf :
  (forall MinimumSize titles profile control ms,
     single_active (world_of (run MinimumSize ms (new_Tab titles profile control)))) /\
  (forall h sender w t,
     tabAlive w = true -> tree w = Some t ->
     pane_id t = _rootPane (tab w) -> NoDup (slots t) ->
     In sender (leaves t) -> sender <> _activePane (tab w) ->
     exists w',
       invoke_GotFocus h sender w = Ok tt w' /\
       active_leaves (ClearActive t) = [] /\
       tree w' = Some (at_slot sender SetActive (ClearActive t)) /\
       option_map active_leaves (tree w') = Some [sender] /\
       single_active w').
Proof.
  split.
  - intros MinimumSize titles profile control ms.
    apply tree_ok_single_active, keeps_run, new_Tab_ok.
  - intros h sender w t Halive Et Hid Hnd Hin Hne.
    exists (focus_moved sender w).
    assert (E : tree (focus_moved sender w)
                = Some (at_slot sender SetActive (ClearActive t))).
    { simpl. rewrite Et, <- Hid. apply marked_whole. }
    split; [now apply invoke_GotFocus_moves|].
    split; [apply active_leaves_ClearActive|].
    split; [exact E|].
    unfold single_active. rewrite E. simpl.
    rewrite clear_then_set by assumption. split; reflexivity.
Qed.

(** C2: when a pane that is not the tracked active pane raises GotFocus and
    the Tab is alive, the lambda clears the flags from the root pane down,
    tracks and marks the sender, queues the header update with the title of
    the sender's control and then raises ActivePaneChanged; when the sender
    is the tracked active pane, nothing changes and nothing is raised. *)
Theorem C2_GotFocus_moves_active_pane h sender w :
  (tabAlive w = true -> sender <> _activePane (tab w) ->
   exists w',
     invoke_GotFocus h sender w = Ok tt w' /\
     tree w' = marked (_rootPane (tab w)) sender (tree w) /\
     (forall t, tree w = Some t -> pane_id t = _rootPane (tab w) ->
                tree w' = Some (at_slot sender SetActive (ClearActive t))) /\
     tab w' = set_activePane sender (tab w) /\
     dispatcher w' = dispatcher w ++ [SetHeaderTask (title_at sender w)] /\
     title_at (_activePane (tab w')) w' = title_at sender w /\
     trace w' = trace w ++ [RunAsync (SetHeaderTask (title_at sender w));
                            ActivePaneChanged] /\
     nextId w' = nextId w /\ Title w' = Title w /\ tabAlive w' = tabAlive w /\
     ClosedHandlers w' = ClosedHandlers w /\
     GotFocusHandlers w' = GotFocusHandlers w /\
     TitleChangedHandlers w' = TitleChangedHandlers w) /\
  (sender = _activePane (tab w) -> invoke_GotFocus h sender w = Ok tt w).
Proof.
  split.
  - intros Halive Hne. exists (focus_moved sender w).
    split; [now apply invoke_GotFocus_moves|].
    repeat split.
    + intros t Et Hid. simpl. rewrite Et, <- Hid. apply marked_whole.
    + unfold title_at. simpl. now rewrite control_at_marked.
  - apply invoke_GotFocus_same.
Qed.

(** C3, amended: the constructor subscribes to Closed on the root pane and to
    nothing else; BindEventHandlers subscribes to GotFocus on the root pane;
    a SplitPane that returns subscribes to GotFocus on both panes that Split
    returned and leaves the registrations on Closed as they were, so that
    after any sequence of calls and events the root pane is the only pane
    whose Closed the Tab listens to. *)
Theorem C3_subscriptions MinimumSize :
  (forall titles profile control,
     let w := new_Tab titles profile control in
     ClosedHandlers w = [(_rootPane (tab w), Tab_ctor_lambda)] /\
     GotFocusHandlers w = []) /\
  (forall w control,
     GotFocusHandlers (world_of (Tab_BindEventHandlers control w))
     = GotFocusHandlers w ++ [(_rootPane (tab w), Tab_AttachEventHandlersToPane_lambda)]) /\
  (forall w splitType profile control first second w1 w',
     Pane_Split MinimumSize (_activePane (tab w)) splitType profile control w
       = Ok (first, second) w1 ->
     Tab_SplitPane MinimumSize splitType profile control w = Ok tt w' ->
     exists f s,
       first = Some f /\ second = Some s /\
       GotFocusHandlers w'
       = GotFocusHandlers w ++ [(f, Tab_AttachEventHandlersToPane_lambda);
                                (s, Tab_AttachEventHandlersToPane_lambda)] /\
       subscribed_GotFocus w' f /\ subscribed_GotFocus w' s /\
       ClosedHandlers w' = ClosedHandlers w) /\
  (forall titles profile control ms p,
     let w := world_of (run MinimumSize ms (new_Tab titles profile control)) in
     subscribed_Closed w p <-> p = _rootPane (tab w)).
Proof.
  split; [|split; [|split]].
  - intros titles profile control w. split; reflexivity.
  - intros w control.
    unfold Tab_BindEventHandlers, Tab__AttachEventHandlersToPane,
      Tab__AttachEventHandlersToControl, Pane_GotFocus, Control_TitleChanged.
    unfold_M. destruct control; reflexivity.
  - intros w splitType profile control first second w1 w' H H0.
    revert H0. unfold Tab_SplitPane. unfold bind at 1, this_activePane at 1, gets at 1.
    unfold bind at 1. rewrite H.
    destruct (Pane_Split_registrations _ _ _ _ _ _ _ _ H) as (Hg & Hc & _ & _).
    unfold Tab__AttachEventHandlersToControl, Tab__AttachEventHandlersToPane,
      Control_TitleChanged, Pane_GotFocus, subscribed_GotFocus.
    destruct control as [c|]; [|discriminate].
    destruct first as [f|]; [|discriminate].
    destruct second as [s|]; [|discriminate].
    unfold_M. intros E. inversion E; subst w'; clear E. simpl.
    exists f, s. rewrite Hg, Hc, <- app_assoc. simpl.
    repeat split; try reflexivity.
    + eexists. apply in_or_app. right. left. reflexivity.
    + eexists. apply in_or_app. right. right. left. reflexivity.
  - intros titles profile control ms p w.
    destruct (unchanged_run MinimumSize [(0, Tab_ctor_lambda)] 0 ms
                (new_Tab titles profile control)) as [Hreg Hroot];
      [split; reflexivity|].
    fold w in Hreg, Hroot. clearbody w. unfold subscribed_Closed.
    rewrite Hreg, Hroot. split.
    + intros [h [E | []]]. now inversion E.
    + intros ->. exists Tab_ctor_lambda. now left.
Qed.


(** C5: GetFocusedProfile, GetActiveTerminalControl and GetActiveTitle
    return in the world they were called in and answer from the leaf the
    active pane points to; with an empty tree they give an absent profile, a
    null control and the empty title, and without an active control the title
    is empty. *)
Theorem C5_queries_pure_and_empty w :
  (Tab_GetActiveTerminalControl w
     = Ok (control_at (_activePane (tab w)) (tree w)) w /\
   Tab_GetFocusedProfile w
     = Ok (profile_at (_activePane (tab w)) (tree w)) w /\
   Tab_GetActiveTitle w = Ok (title_at (_activePane (tab w)) w) w) /\
  (forall i p c a sz,
     deref (_activePane (tab w)) w = Some (LeafNode i p c a sz) ->
     control_at (_activePane (tab w)) (tree w) = c /\
     profile_at (_activePane (tab w)) (tree w) = Some p /\
     title_at (_activePane (tab w)) w
       = match c with Some c' => Title w c' | None => EmptyString end) /\
  (tree w = None ->
     control_at (_activePane (tab w)) (tree w) = None /\
     profile_at (_activePane (tab w)) (tree w) = None /\
     title_at (_activePane (tab w)) w = EmptyString) /\
  (control_at (_activePane (tab w)) (tree w) = None ->
     title_at (_activePane (tab w)) w = EmptyString).
Proof.
  repeat split.
  - unfold Tab_GetActiveTerminalControl, Pane_GetTerminalControl, deref, control_at.
    unfold_M. destruct (tree w); reflexivity.
  - unfold Tab_GetFocusedProfile, Pane_GetFocusedProfile, deref, profile_at.
    unfold_M. destruct (tree w); reflexivity.
  - unfold Tab_GetActiveTitle, Tab_GetActiveTerminalControl, Pane_GetTerminalControl,
      deref, title_at, control_at.
    unfold_M. destruct (tree w) as [t|]; [|reflexivity].
    destruct (find_pane _ t) as [[? ? [c|] ? ?|]|]; reflexivity.
  - unfold deref in H. unfold control_at. destruct (tree w); [|discriminate].
    now rewrite H.
  - unfold deref in H. unfold profile_at. destruct (tree w); [|discriminate].
    now rewrite H.
  - unfold deref in H. unfold title_at, control_at. destruct (tree w); [|discriminate].
    now rewrite H.
  - now rewrite H.
  - now rewrite H.
  - unfold title_at. now rewrite H.
  - intros H. unfold title_at. now rewrite H.
Qed.

(** C6: on a Tab that exists, the lambda the constructor registers on the
    root pane's Closed event raises the Tab's Closed whatever else the world
    holds, and changes nothing besides: it tests no state and filters
    nothing.  It guards nothing either: run after the Tab was destroyed it
    faults.  After any sequence of calls and events on a new Tab the Tab is
    still owned and that lambda is still the one registration, so the root
    pane raising Closed makes the Tab raise Closed, once and with nothing else
    changed; in particular closing the last leaf empties the tree and raises
    Closed. *)
Theorem C6_root_Closed_is_propagated :
  (forall h w, tabAlive w = true ->
     invoke_Closed h w = Ok tt (with_trace (trace w ++ [Closed]) w)) /\
  (forall h w, tabAlive w = false -> invoke_Closed h w = Fault w) /\
  (forall MinimumSize titles profile control ms,
     let w := world_of (run MinimumSize ms (new_Tab titles profile control)) in
     tabAlive w = true /\
     ClosedHandlers w = [(_rootPane (tab w), Tab_ctor_lambda)] /\
     Pane_raise_Closed (_rootPane (tab w)) w
       = Ok tt (with_trace (trace w ++ [Closed]) w) /\
     (forall i p c a sz,
        tree w = Some (LeafNode i p c a sz) ->
        _activePane (tab w) = _rootPane (tab w) ->
        Tab_ClosePane w = Ok tt (with_trace (trace w ++ [Closed]) (with_tree None w)))).
Proof.
  split; [|split].
  - intros [] w Halive. unfold invoke_Closed, bind, gets. now rewrite Halive.
  - intros [] w Halive. unfold invoke_Closed, bind, gets. now rewrite Halive.
  - intros MinimumSize titles profile control ms w.
    destruct (unchanged_run MinimumSize [(0, Tab_ctor_lambda)] 0 ms
                (new_Tab titles profile control)) as [Hreg Hroot];
      [split; reflexivity|].
    pose proof (keeps_run MinimumSize ms _ (new_Tab_ok titles profile control)) as Hok.
    pose proof (owned_run MinimumSize ms (new_Tab titles profile control) eq_refl)
      as Halive.
    fold w in Hreg, Hroot, Hok, Halive. clearbody w. unfold owned in Halive.
    rewrite Hroot. split; [assumption|]. split; [assumption|]. split.
    + unfold Pane_raise_Closed, invoke_Closed, bind, gets. rewrite Hreg. simpl.
      unfold bind, gets. now rewrite Halive.
    + intros i p c a sz Et Hap.
      unfold tree_ok in Hok. rewrite Et, Hroot in Hok.
      destruct Hok as [[Hid _] _]. simpl in Hid. subst i.
      unfold Tab_ClosePane, Pane_Close, Pane_raise_Closed, invoke_Closed, deref.
      unfold_M.
      rewrite Hap, Et. simpl. rewrite Et. simpl. rewrite Hreg. simpl.
      rewrite Halive. reflexivity.
Qed.

(** C7: SetFocused records the flag and, when the Tab gains focus and the
    active leaf has a control, requests focus on that control; it changes
    nothing else, so the tracked active pane and every [isActive] are as
    before, and SetFocused(false) requests nothing. *)
Theorem C7_SetFocused_keeps_active_pane w focused :
  let requests :=
    match focused, control_at (_activePane (tab w)) (tree w) with
    | true, Some c => [Focus c]
    | _, _ => []
    end in
  Tab_SetFocused focused w
    = Ok tt (with_trace (trace w ++ requests)
               (with_tab (set_focused focused (tab w)) w)) /\
  tree (world_of (Tab_SetFocused focused w)) = tree w /\
  _activePane (tab (world_of (Tab_SetFocused focused w))) = _activePane (tab w) /\
  trace (world_of (Tab_SetFocused false w)) = trace w.
Proof.
  cbv zeta.
  assert (E : Tab_SetFocused focused w
    = Ok tt (with_trace (trace w ++
               match focused, control_at (_activePane (tab w)) (tree w) with
               | true, Some c => [Focus c]
               | _, _ => []
               end)
               (with_tab (set_focused focused (tab w)) w))).
  { unfold Tab_SetFocused, Tab__Focus, Tab_IsFocused, Tab_GetActiveTerminalControl,
      Pane_GetTerminalControl, deref, control_at.
    destruct w as [t n ti ch gh th q tr al [r ap fo ip vi]]. unfold_M.
    destruct focused; simpl; [|now rewrite app_nil_r].
    destruct t as [t|]; simpl; [|now rewrite app_nil_r].
    destruct (find_pane ap t) as [[? ? [c|] ? ?|]|]; simpl; now rewrite ?app_nil_r. }
  split; [exact E|]. rewrite E. repeat split.
Qed.

(** C8: when a control the Tab listens to raises TitleChanged and the Tab is
    alive, every registered lambda queues a header update whose text is the
    title of the active pane's control, whatever title the event carries;
    once the dispatcher has run, the header is that title, and neither the
    tree nor the tracked active pane has changed. *)
Theorem C8_TitleChanged_shows_active_title w c h newTitle :
  tabAlive w = true -> In (c, h) (TitleChangedHandlers w) ->
  let text := title_at (_activePane (tab w)) w in
  exists w1 w2,
    Control_raise_TitleChanged c newTitle w = Ok tt w1 /\
    w1 = queued (registrations c (TitleChangedHandlers w)) text w /\
    (forall other, Control_raise_TitleChanged c other w = Ok tt w1) /\
    Dispatcher_drain w1 = Ok tt w2 /\
    Header (_tabViewItem (tab w2)) = Some text /\
    tree w2 = tree w /\ _activePane (tab w2) = _activePane (tab w) /\
    title_at (_activePane (tab w2)) w2 = text.
Proof.
  intros Halive Hin text.
  destruct (registrations_pos c h _ Hin) as [k Hk].
  assert (Hraise : forall t, Control_raise_TitleChanged c t w
            = Ok tt (queued (registrations c (TitleChangedHandlers w)) text w)).
  { intros t. unfold Control_raise_TitleChanged, bind, gets.
    now apply raise_TitleChanged_queues. }
  set (w1 := queued (registrations c (TitleChangedHandlers w)) text w) in *.
  assert (Hq : dispatcher w1
               = (dispatcher w ++ repeat (SetHeaderTask text) k) ++ [SetHeaderTask text]).
  { unfold w1, queued. simpl. rewrite Hk, <- app_assoc. f_equal.
    change (repeat (SetHeaderTask text) (S k))
      with (SetHeaderTask text :: repeat (SetHeaderTask text) k).
    apply repeat_cons. }
  destruct (run_tasks_last_header (dispatcher w ++ repeat (SetHeaderTask text) k) text
              (with_dispatcher [] w1)) as (w2 & E2 & Hh & Ht & Ha); [exact Halive|].
  exists w1, w2. repeat split; auto.
  - unfold Dispatcher_drain, bind, gets, modify. now rewrite Hq.
  - unfold title_at in *. simpl in Ht, Ha. destruct (run_tasks_returns
      (dispatcher w ++ repeat (SetHeaderTask text) k ++ [SetHeaderTask text])
      (with_dispatcher [] w1)) as (w2' & E2' & S2).
    rewrite <- app_assoc in E2. rewrite E2 in E2'. inversion E2'; subst w2'.
    unfold same_but_item in S2. simpl in S2.
    destruct S2 as (St & _ & Sti & _ & _ & _ & _ & _ & _ & _ & Sa & _).
    unfold text, title_at. now rewrite St, Sti, Sa.
Qed.

(** C9: UpdateIcon with the path it was last given returns at once, with
    nothing scheduled and nothing changed; two calls in a row with the same
    path do what one does. *)
Theorem C9_UpdateIcon_idempotent w iconPath :
  (_lastIconPath (tab w) = iconPath -> Tab_UpdateIcon iconPath w = Ok tt w) /\
  (exists w1, Tab_UpdateIcon iconPath w = Ok tt w1 /\
              _lastIconPath (tab w1) = iconPath /\
              Tab_UpdateIcon iconPath w1 = Ok tt w1) /\
  bind (Tab_UpdateIcon iconPath) (fun _ => Tab_UpdateIcon iconPath) w
    = Tab_UpdateIcon iconPath w.
Proof.
  assert (Hsame : forall v, _lastIconPath (tab v) = iconPath ->
                            Tab_UpdateIcon iconPath v = Ok tt v).
  { intros v Hv. unfold Tab_UpdateIcon. unfold_M. now rewrite Hv, String.eqb_refl. }
  assert (Hex : exists w1, Tab_UpdateIcon iconPath w = Ok tt w1 /\
                           _lastIconPath (tab w1) = iconPath).
  { unfold Tab_UpdateIcon. unfold_M.
    destruct (String.eqb_spec iconPath (_lastIconPath (tab w))) as [E | E];
      eexists; split; try reflexivity; simpl; auto. }
  destruct Hex as (w1 & E1 & P1).
  split; [apply Hsame|]. split.
  - exists w1. auto.
  - unfold bind. rewrite E1. auto.
Qed.

(** C10: whatever the members and the slot counter hold when the
    constructor starts, it returns with a tree that is the single active leaf
    wrapping the initial content, in the slot it took from the counter, with
    [_rootPane] and [_activePane] both assigned that slot, and with its
    lambda registered on that pane's Closed event.  So immediately after
    construction -- the members were null before -- the tracked active pane
    is the root pane, and the active-pane queries answer from that leaf. *)
Theorem C10_fresh_tab_tracks_root titles profile control :
  (forall w0,
     exists w,
       Tab_ctor profile control w0 = Ok tt w /\
       _rootPane (tab w) = nextId w0 /\
       _activePane (tab w) = nextId w0 /\
       tree w = Some (LeafNode (nextId w0) profile control true (mkSize 0 0)) /\
       active_leaves (LeafNode (nextId w0) profile control true (mkSize 0 0))
         = [_activePane (tab w)] /\
       ClosedHandlers w = ClosedHandlers w0 ++ [(nextId w0, Tab_ctor_lambda)]) /\
  (let w := new_Tab titles profile control in
   Tab_ctor profile control (before_ctor titles) = Ok tt w /\
   _rootPane (tab w) <> _rootPane (tab (before_ctor titles)) /\
   _activePane (tab w) <> _activePane (tab (before_ctor titles)) /\
   _activePane (tab w) = _rootPane (tab w) /\
   tree w = Some (LeafNode (_rootPane (tab w)) profile control true (mkSize 0 0)) /\
   Tab_GetActiveTerminalControl w = Ok control w /\
   Tab_GetFocusedProfile w = Ok (Some profile) w /\
   Tab_GetActiveTitle w
     = Ok (match control with Some c => titles c | None => EmptyString end) w).
Proof.
  split.
  - intros w0. eexists. split; [reflexivity|]. simpl.
    split; [reflexivity|]. split; [reflexivity|]. split; [reflexivity|].
    split; reflexivity.
  - cbv zeta. split; [reflexivity|]. split; [discriminate|]. split; [discriminate|].
    split; [reflexivity|]. split; [reflexivity|]. split; [reflexivity|].
    split; [reflexivity|].
    unfold Tab_GetActiveTitle, bind. simpl. destruct control; reflexivity.
Qed.

(** ** The scenario of the specification *)

Example tab_AB_tree :
  tree tab_AB
  = Some (SplitNode 0 Vertical (1 # 2) false (mkSize 80 24)
            (LeafNode 1 7%N (Some 0) false (mkSize (80 * (1 # 2)) 24))
            (LeafNode 2 8%N (Some 1) true (mkSize (80 - 80 * (1 # 2)) 24))).
Proof. reflexivity. Qed.

Example scenario_steps :
  map (fun n => option_map active_leaves
                  (tree (world_of (run one_by_one (firstn n scenario)
                                       (new_Tab cmd_titles 7%N (Some 0))))))
      [0; 3; 5; 7; 9; 11; 13]
  = [Some [0]; Some [2]; Some [1]; Some [4]; Some [1]; Some [0]; None].
Proof. reflexivity. Qed.

Example scenario_raises_Closed_once :
  let w := world_of (run one_by_one scenario (new_Tab cmd_titles 7%N (Some 0))) in
  tree w = None /\ filter is_Closed (trace w) = [Closed] /\
  last (trace w) ActivePaneChanged = Closed.
Proof. repeat split. Qed.

(** ** The properties at concrete inputs *)

Lemma C1_exactly_one_active_leaf_witness :
  single_active (world_of (run one_by_one scenario (new_Tab cmd_titles 7%N (Some 0)))) /\
  (tabAlive tab_AB = true /\ 1 <> _activePane (tab tab_AB)) /\
  exists w',
    invoke_GotFocus Tab_AttachEventHandlersToPane_lambda 1 tab_AB = Ok tt w' /\
    option_map active_leaves (tree tab_AB) = Some [2] /\
    option_map active_leaves (tree w') = Some [1].
Proof.
  destruct C1_exactly_one_active_leaf as [Hrun Hlambda].
  split; [apply Hrun|].
  assert (Hne : 1 <> _activePane (tab tab_AB)) by (simpl; discriminate).
  split; [split; [reflexivity | exact Hne]|].
  destruct (Hlambda Tab_AttachEventHandlersToPane_lambda 1 tab_AB
              (SplitNode 0 Vertical (1 # 2) false (mkSize 80 24)
                 (LeafNode 1 7%N (Some 0) false (mkSize (80 * (1 # 2)) 24))
                 (LeafNode 2 8%N (Some 1) true (mkSize (80 - 80 * (1 # 2)) 24))))
    as (w' & E & _ & Et & Ha & _).
  - reflexivity.
  - reflexivity.
  - reflexivity.
  - simpl. repeat constructor; simpl; intuition discriminate.
  - simpl. auto.
  - exact Hne.
  - exists w'. split; [exact E|]. split; [reflexivity|]. exact Ha.
Defined.

Lemma C2_GotFocus_moves_active_pane_witness :
  (tabAlive tab_AB = true /\ 1 <> _activePane (tab tab_AB)) /\
  exists w',
    invoke_GotFocus Tab_AttachEventHandlersToPane_lambda 1 tab_AB = Ok tt w' /\
    _activePane (tab w') = 1 /\
    dispatcher w' = dispatcher tab_AB ++ [SetHeaderTask "cmd"%string] /\
    trace w' = trace tab_AB ++ [RunAsync (SetHeaderTask "cmd"%string); ActivePaneChanged].
Proof.
  assert (Hne : 1 <> _activePane (tab tab_AB)) by (simpl; discriminate).
  split; [split; [reflexivity | exact Hne]|].
  destruct (proj1 (C2_GotFocus_moves_active_pane Tab_AttachEventHandlersToPane_lambda
                     1 tab_AB) eq_refl Hne)
    as (w' & E & _ & _ & Htab & Hq & _ & Htr & _).
  exists w'. split; [exact E|]. split; [now rewrite Htab|]. split; assumption.
Defined.

Lemma C3_subscriptions_witness :
  exists w1,
    Pane_Split one_by_one (_activePane (tab tab_A)) Vertical 8%N (Some 1) tab_A
      = Ok (Some 1, Some 2) w1 /\
    Tab_SplitPane one_by_one Vertical 8%N (Some 1) tab_A = Ok tt tab_AB /\
    GotFocusHandlers tab_AB
    = [(0, Tab_AttachEventHandlersToPane_lambda);
       (1, Tab_AttachEventHandlersToPane_lambda);
       (2, Tab_AttachEventHandlersToPane_lambda)] /\
    ClosedHandlers tab_AB = ClosedHandlers tab_A.
Proof.
  eexists. split; [reflexivity|]. split; [reflexivity|].
  destruct (C3_subscriptions one_by_one) as (_ & _ & Hsplit & _).
  destruct (Hsplit tab_A Vertical 8%N (Some 1) (Some 1) (Some 2) _ tab_AB
              eq_refl eq_refl)
    as (f & s & Ef & Es & Hg & _ & _ & Hc).
  inversion Ef; inversion Es; subst f s. split; [exact Hg | exact Hc].
Defined.

(** C3, as stated, fails: right after construction the Tab does not listen
    to GotFocus on the root pane, and after a SplitPane that returned it
    listens to Closed on neither of the two panes that Split handed back. *)
Lemma C3_counterexample :
  ~ subscribed_GotFocus (new_Tab cmd_titles 7%N (Some 0))
                        (_rootPane (tab (new_Tab cmd_titles 7%N (Some 0)))) /\
  exists w1,
    Pane_Split one_by_one (_activePane (tab tab_A)) Vertical 8%N (Some 1) tab_A
      = Ok (Some 1, Some 2) w1 /\
    Tab_SplitPane one_by_one Vertical 8%N (Some 1) tab_A = Ok tt tab_AB /\
    ~ subscribed_Closed tab_AB 1 /\ ~ subscribed_Closed tab_AB 2 /\
    ~ (subscribed_GotFocus tab_AB 1 /\ subscribed_Closed tab_AB 1 /\
       subscribed_GotFocus tab_AB 2 /\ subscribed_Closed tab_AB 2).
Proof.
  assert (H1 : ~ subscribed_Closed tab_AB 1).
  { intros [h Hin]. simpl in Hin. destruct Hin as [E | []]. discriminate. }
  assert (H2 : ~ subscribed_Closed tab_AB 2).
  { intros [h Hin]. simpl in Hin. destruct Hin as [E | []]. discriminate. }
  split.
  - intros [h []].
  - eexists. split; [reflexivity|]. split; [reflexivity|].
    split; [exact H1|]. split; [exact H2|]. intros (_ & H & _). exact (H1 H).
Qed.


Lemma C5_queries_pure_and_empty_witness :
  let w := tab_AB_focused in
  let emptied := world_of (run one_by_one scenario (new_Tab cmd_titles 7%N (Some 0))) in
  (deref (_activePane (tab w)) w
     = Some (LeafNode 2 8%N (Some 1) true (mkSize (80 - 80 * (1 # 2)) 24)) /\
   Tab_GetActiveTitle w = Ok "pwsh"%string w /\
   Tab_GetFocusedProfile w = Ok (Some 8%N) w /\
   Tab_GetActiveTerminalControl w = Ok (Some 1) w) /\
  (tree emptied = None /\
   Tab_GetActiveTitle emptied = Ok EmptyString emptied /\
   Tab_GetFocusedProfile emptied = Ok None emptied /\
   Tab_GetActiveTerminalControl emptied = Ok None emptied).
Proof.
  intros w emptied. split.
  - split; [reflexivity|].
    destruct (C5_queries_pure_and_empty w) as ((Hc & Hp & Ht) & Hleaf & _).
    destruct (Hleaf 2 8%N (Some 1) true (mkSize (80 - 80 * (1 # 2)) 24) eq_refl)
      as (Ec & Ep & Et).
    rewrite Ht, Hp, Hc, Et, Ep, Ec. repeat split.
  - destruct (C5_queries_pure_and_empty emptied)
      as ((Hc & Hp & Ht) & _ & Hempty & _).
    destruct (Hempty eq_refl) as (Ec & Ep & Et).
    split; [reflexivity|].
    rewrite Ht, Hp, Hc, Et, Ep, Ec. repeat split.
Defined.

Lemma C6_root_Closed_is_propagated_witness :
  let w := world_of (run one_by_one (firstn 12 scenario) (new_Tab cmd_titles 7%N (Some 0))) in
  (tree w = Some (LeafNode 0 8%N (Some 1) true (mkSize (80 - 80 * (1 # 2)) 24)) /\
   _activePane (tab w) = _rootPane (tab w)) /\
  Tab_ClosePane w = Ok tt (with_trace (trace w ++ [Closed]) (with_tree None w)) /\
  (tabAlive tab_AB = true /\
   invoke_Closed Tab_ctor_lambda tab_AB
     = Ok tt (with_trace (trace tab_AB ++ [Closed]) tab_AB)) /\
  (tabAlive (Owner_releases tab_AB) = false /\
   invoke_Closed Tab_ctor_lambda (Owner_releases tab_AB) = Fault (Owner_releases tab_AB)).
Proof.
  intros w. split; [split; reflexivity|].
  destruct C6_root_Closed_is_propagated as (Hlive & Hgone & Hrun).
  destruct (Hrun one_by_one cmd_titles 7%N (Some 0) (firstn 12 scenario))
    as (_ & _ & _ & Hclose).
  split; [|split].
  - exact (Hclose 0 8%N (Some 1) true (mkSize (80 - 80 * (1 # 2)) 24) eq_refl eq_refl).
  - split; [reflexivity|]. exact (Hlive Tab_ctor_lambda tab_AB eq_refl).
  - split; [reflexivity|].
    exact (Hgone Tab_ctor_lambda (Owner_releases tab_AB) eq_refl).
Defined.

Lemma C8_TitleChanged_shows_active_title_witness :
  (tabAlive tab_AB_focused = true /\
   In (0, Tab_AttachEventHandlersToControl_lambda) (TitleChangedHandlers tab_AB_focused) /\
   control_at (_activePane (tab tab_AB_focused)) (tree tab_AB_focused) = Some 1) /\
  exists w1 w2,
    Control_raise_TitleChanged 0 "vim"%string tab_AB_focused = Ok tt w1 /\
    Dispatcher_drain w1 = Ok tt w2 /\
    Header (_tabViewItem (tab w2)) = Some "pwsh"%string.
Proof.
  assert (Hin : In (0, Tab_AttachEventHandlersToControl_lambda)
                   (TitleChangedHandlers tab_AB_focused)) by (simpl; auto).
  split; [repeat split; exact Hin|].
  destruct (C8_TitleChanged_shows_active_title tab_AB_focused 0
              Tab_AttachEventHandlersToControl_lambda "vim"%string eq_refl Hin)
    as (w1 & w2 & E1 & _ & _ & E2 & Hh & _).
  exists w1, w2. repeat split; assumption.
Defined.

Lemma C9_UpdateIcon_idempotent_witness :
  let w := world_of (Tab_UpdateIcon "a.ico"%string tab_A) in
  _lastIconPath (tab w) = "a.ico"%string /\
  dispatcher w = [SetIconSourceTask] /\
  Tab_UpdateIcon "a.ico"%string w = Ok tt w.
Proof.
  intros w. split; [reflexivity|]. split; [reflexivity|].
  exact (proj1 (C9_UpdateIcon_idempotent w "a.ico"%string) eq_refl).
Defined.

(** * Further properties of Tab.cpp *)

(** ** A Tab that has expired *)

Lemma raise_to_unheard {K H} (eqb : K -> K -> bool) (invoke : H -> M unit) source hs w :
  (forall h, invoke h w = Ok tt w) ->
  raise_to eqb invoke source hs w = Ok tt w.
Proof.
  intros Hinv. induction hs as [| [k h] hs IH]; simpl; [reflexivity|].
  unfold bind. destruct (eqb k source); [rewrite Hinv | unfold ret]; exact IH.
Qed.

Lemma run_tasks_expired q : forall w, tabAlive w = false -> run_tasks q w = Ok tt w.
Proof.
  induction q as [|t q IH]; intros w Hdead; simpl; [reflexivity|].
  unfold bind. destruct t; simpl; unfold_M; rewrite Hdead; now apply IH.
Qed.

(** X1: once the Tab has expired, a GotFocus from any pane and a
    TitleChanged from any control change nothing, and the dispatcher drops
    what was queued without touching the tab view item. *)
Theorem X1_expired_tab_ignores_events w :
  tabAlive w = false ->
  (forall sender, Pane_raise_GotFocus sender w = Ok tt w) /\
  (forall c newTitle, Control_raise_TitleChanged c newTitle w = Ok tt w) /\
  Dispatcher_drain w = Ok tt (with_dispatcher [] w).
Proof.
  intros Hdead. split; [|split].
  - intros sender. unfold Pane_raise_GotFocus, bind, gets.
    destruct (deref sender w) as [[| ]|]; try reflexivity.
    apply raise_to_unheard. intros h. now apply invoke_GotFocus_expired.
  - intros c newTitle. unfold Control_raise_TitleChanged, bind, gets.
    apply raise_to_unheard. intros []. unfold invoke_TitleChanged. unfold_M.
    now rewrite Hdead.
  - unfold Dispatcher_drain, bind, gets, modify. now apply run_tasks_expired.
Qed.

(** ** SetTabText and UpdateIcon through the dispatcher *)

Lemma calls_SetTabText texts :
  forall w,
    calls Tab_SetTabText texts w
    = Ok tt (with_trace (trace w ++ map (fun t => RunAsync (SetHeaderTask t)) texts)
               (with_dispatcher (dispatcher w ++ map SetHeaderTask texts) w)).
Proof.
  induction texts as [|t texts IH]; intros w; simpl.
  - destruct w. unfold_M. simpl. now rewrite !app_nil_r.
  - unfold bind at 1. unfold Tab_SetTabText at 1. unfold_M. rewrite IH. unfold_M.
    now rewrite <- !app_assoc.
Qed.

(** X2: however many header texts were handed to SetTabText before the
    dispatcher ran, the header ends up as the text of the last call; the
    texts of the earlier calls are overwritten, and nothing but the tab view
    item and the queue has changed. *)
Theorem X2_SetTabText_last_call_wins w texts text :
  tabAlive w = true ->
  exists w1 w2,
    calls Tab_SetTabText (texts ++ [text]) w = Ok tt w1 /\
    Dispatcher_drain w1 = Ok tt w2 /\
    Header (_tabViewItem (tab w2)) = Some text /\
    (exists item, Tab_GetTabViewItem w2 = Ok item w2 /\ Header item = Some text) /\
    dispatcher w2 = [] /\
    tree w2 = tree w /\ _activePane (tab w2) = _activePane (tab w) /\
    _focused (tab w2) = _focused (tab w) /\
    _lastIconPath (tab w2) = _lastIconPath (tab w).
Proof.
  intros Halive.
  pose proof (calls_SetTabText (texts ++ [text]) w) as E1.
  set (w1 := with_trace _ _) in E1.
  assert (Hq : dispatcher w1 = (dispatcher w ++ map SetHeaderTask texts) ++ [SetHeaderTask text]).
  { unfold w1. simpl. now rewrite map_app, app_assoc. }
  destruct (run_tasks_last_header (dispatcher w ++ map SetHeaderTask texts) text
              (with_dispatcher [] w1) Halive) as (w2 & E2 & Hh & _).
  destruct (run_tasks_returns ((dispatcher w ++ map SetHeaderTask texts) ++ [SetHeaderTask text])
              (with_dispatcher [] w1)) as (w2' & E2' & S2).
  rewrite E2 in E2'. inversion E2'; subst w2'. clear E2'.
  exists w1, w2. split; [exact E1|]. split.
  - unfold Dispatcher_drain, bind, gets, modify. cbv beta. now rewrite Hq.
  - unfold same_but_item in S2. simpl in S2.
    destruct S2 as (St & _ & _ & _ & _ & _ & Sd & _ & _ & _ & Sa & Sf & Si).
    repeat split; auto.
    exists (_tabViewItem (tab w2)). split; [reflexivity | exact Hh].
Qed.

Lemma UpdateIcon_returns iconPath w :
  exists w',
    Tab_UpdateIcon iconPath w = Ok tt w' /\
    _lastIconPath (tab w') = iconPath /\ tabAlive w' = tabAlive w /\
    (forall t, In t (dispatcher w) -> In t (dispatcher w')) /\
    (iconPath <> _lastIconPath (tab w) -> In SetIconSourceTask (dispatcher w')).
Proof.
  unfold Tab_UpdateIcon. unfold_M.
  destruct (String.eqb_spec iconPath (_lastIconPath (tab w))) as [E | E];
    eexists; (split; [reflexivity|]); simpl.
  - repeat split; auto. intros H. contradiction.
  - repeat split; auto.
    + intros t Ht. apply in_or_app. now left.
    + intros _. apply in_or_app. right. now left.
Qed.

Lemma last_nonempty {A} (l : list A) :
  forall x d d', last (x :: l) d = last (x :: l) d'.
Proof.
  induction l as [|y l IH]; intros x d d'; [reflexivity|].
  change (last (y :: l) d = last (y :: l) d'). apply IH.
Qed.

Lemma calls_UpdateIcon paths :
  forall w iconPath,
    exists w',
      calls Tab_UpdateIcon (iconPath :: paths) w = Ok tt w' /\
      _lastIconPath (tab w') = last (iconPath :: paths) iconPath /\
      tabAlive w' = tabAlive w /\
      (forall t, In t (dispatcher w) -> In t (dispatcher w')) /\
      (iconPath <> _lastIconPath (tab w) -> In SetIconSourceTask (dispatcher w')).
Proof.
  induction paths as [|p paths IH]; intros w iconPath.
  - destruct (UpdateIcon_returns iconPath w) as (w' & E & Hp & Ha & Hq & Hi).
    exists w'. simpl. unfold bind. rewrite E. repeat split; auto.
  - destruct (UpdateIcon_returns iconPath w) as (w1 & E1 & Hp1 & Ha1 & Hq1 & Hi1).
    destruct (IH w1 p) as (w' & E & Hp & Ha & Hq & _).
    exists w'. change (calls Tab_UpdateIcon (iconPath :: p :: paths) w)
      with (bind (Tab_UpdateIcon iconPath) (fun _ => calls Tab_UpdateIcon (p :: paths)) w).
    unfold bind at 1. rewrite E1. split; [exact E|].
    split; [|split; [congruence | split; auto]].
    rewrite Hp. change (last (iconPath :: p :: paths) iconPath)
      with (last (p :: paths) iconPath). apply last_nonempty.
Qed.

Lemma run_tasks_icon_kept q :
  forall w, IconSource (_tabViewItem (tab w)) = Some (_lastIconPath (tab w)) ->
    exists w', run_tasks q w = Ok tt w' /\
               IconSource (_tabViewItem (tab w')) = Some (_lastIconPath (tab w)).
Proof.
  induction q as [|t q IH]; intros w Hicon; simpl; [eauto|].
  unfold bind.
  assert (H1 : exists w1, run_task t w = Ok tt w1 /\
                 IconSource (_tabViewItem (tab w1)) = Some (_lastIconPath (tab w)) /\
                 _lastIconPath (tab w1) = _lastIconPath (tab w)).
  { destruct t; unfold run_task; unfold_M; destruct (tabAlive w);
      eexists; (split; [reflexivity|]); simpl; auto. }
  destruct H1 as (w1 & E1 & Hi1 & Hp1). rewrite E1.
  rewrite <- Hp1 in Hi1. destruct (IH w1 Hi1) as (w' & E & Hi).
  exists w'. split; [exact E | congruence].
Qed.

Lemma run_tasks_icon_set q :
  forall w, tabAlive w = true -> In SetIconSourceTask q ->
    exists w', run_tasks q w = Ok tt w' /\
               IconSource (_tabViewItem (tab w')) = Some (_lastIconPath (tab w)).
Proof.
  induction q as [|t q IH]; intros w Halive Hin; [contradiction|].
  simpl. unfold bind. destruct Hin as [-> | Hin].
  - unfold run_task. unfold_M. rewrite Halive.
    match goal with |- exists w', run_tasks q ?v = _ /\ _ =>
      destruct (run_tasks_icon_kept q v eq_refl) as (w' & E & Hi) end.
    exists w'. split; [exact E | exact Hi].
  - destruct (run_task_returns t w) as (w1 & E1 & S1). rewrite E1.
    unfold same_but_item in S1.
    destruct S1 as (_ & _ & _ & _ & _ & _ & _ & _ & Sa & _ & _ & _ & Sp).
    destruct (IH w1) as (w' & E & Hi); [congruence | assumption|].
    exists w'. split; [exact E | congruence].
Qed.

(** X3: the icon task reads the path when it runs, not when it was queued.
    After UpdateIcon was called with a path that differs from the last one,
    and then with any further paths, the dispatcher leaves the icon made
    from the path of the last call, whatever was queued in between. *)
Theorem X3_UpdateIcon_shows_last_path w iconPath paths :
  tabAlive w = true -> iconPath <> _lastIconPath (tab w) ->
  exists w1 w2,
    calls Tab_UpdateIcon (iconPath :: paths) w = Ok tt w1 /\
    Dispatcher_drain w1 = Ok tt w2 /\
    _lastIconPath (tab w2) = last (iconPath :: paths) iconPath /\
    IconSource (_tabViewItem (tab w2)) = Some (last (iconPath :: paths) iconPath).
Proof.
  intros Halive Hne.
  destruct (calls_UpdateIcon paths w iconPath) as (w1 & E1 & Hp & Ha & _ & Hi).
  specialize (Hi Hne).
  destruct (run_tasks_icon_set (dispatcher w1) (with_dispatcher [] w1)) as (w2 & E2 & Hicon);
    [simpl; congruence | exact Hi|].
  destruct (run_tasks_returns (dispatcher w1) (with_dispatcher [] w1)) as (w2' & E2' & S2).
  rewrite E2 in E2'. inversion E2'; subst w2'. clear E2'.
  exists w1, w2. split; [exact E1|]. split.
  - unfold Dispatcher_drain, bind, gets, modify. exact E2.
  - unfold same_but_item in S2. simpl in S2, Hicon.
    destruct S2 as (_ & _ & _ & _ & _ & _ & _ & _ & _ & _ & _ & _ & Sp).
    split; congruence.
Qed.

(** X5: running the dispatcher never faults; it empties the queue and
    changes nothing but the tab view item: the pane tree, the tracked panes,
    the registrations and the trace are as before. *)
Theorem X5_dispatcher_only_touches_the_item w :
  exists w',
    Dispatcher_drain w = Ok tt w' /\
    dispatcher w' = [] /\
    tree w' = tree w /\ trace w' = trace w /\ tabAlive w' = tabAlive w /\
    ClosedHandlers w' = ClosedHandlers w /\
    GotFocusHandlers w' = GotFocusHandlers w /\
    TitleChangedHandlers w' = TitleChangedHandlers w /\
    _rootPane (tab w') = _rootPane (tab w) /\
    _activePane (tab w') = _activePane (tab w) /\
    _focused (tab w') = _focused (tab w) /\
    _lastIconPath (tab w') = _lastIconPath (tab w).
Proof.
  destruct (run_tasks_returns (dispatcher w) (with_dispatcher [] w)) as (w' & E & S).
  exists w'. split; [exact E|].
  unfold same_but_item in S. simpl in S. tauto.
Qed.

(** ** One GotFocus event *)

Lemma raise_GotFocus_once sender hs :
  forall w,
    raise_to Nat.eqb (fun h => invoke_GotFocus h sender) sender hs w
    = Ok tt (if existsb (fun kh => fst kh =? sender) hs && tabAlive w
                && negb (sender =? _activePane (tab w))
             then focus_moved sender w else w).
Proof.
  induction hs as [| [k h] hs IH]; intros w; simpl; [reflexivity|].
  unfold bind. destruct (Nat.eqb_spec k sender) as [-> | Hk]; simpl.
  - destruct (tabAlive w) eqn:Ealive.
    + destruct (Nat.eqb_spec sender (_activePane (tab w))) as [E | E]; simpl.
      * rewrite invoke_GotFocus_same by assumption. rewrite IH, Ealive.
        apply Nat.eqb_eq in E. rewrite E. simpl. now rewrite andb_false_r.
      * rewrite invoke_GotFocus_moves by assumption. rewrite IH. simpl.
        rewrite Nat.eqb_refl. simpl. now rewrite andb_false_r.
    + rewrite invoke_GotFocus_expired by assumption. rewrite IH, Ealive.
      now rewrite andb_false_r.
  - unfold ret. apply IH.
Qed.

Lemma raise_GotFocus_outcome sender w :
  Pane_raise_GotFocus sender w
  = Ok tt (if focus_moves sender w then focus_moved sender w else w).
Proof.
  unfold Pane_raise_GotFocus, focus_moves, holds_leaf, listens_to, bind, gets.
  destruct (deref sender w) as [[| ]|]; simpl; try reflexivity.
  rewrite raise_GotFocus_once. reflexivity.
Qed.

Lemma focus_moves_settled sender w :
  focus_moves sender (focus_moved sender w) = false.
Proof.
  unfold focus_moves. simpl. rewrite Nat.eqb_refl. simpl. apply andb_false_r.
Qed.

(** X6: however often the lambda is registered on a pane, one GotFocus from
    that pane moves the focus at most once: either nothing changes, or the
    sender becomes the tracked active pane, one header update is queued and
    ActivePaneChanged is raised exactly once.  A second GotFocus from the
    same pane changes nothing further. *)
Theorem X6_one_focus_move_per_event sender w :
  let after := world_of (Pane_raise_GotFocus sender w) in
  Pane_raise_GotFocus sender w = Ok tt after /\
  (focus_moves sender w = false -> after = w) /\
  (focus_moves sender w = true ->
     _activePane (tab after) = sender /\
     dispatcher after = dispatcher w ++ [SetHeaderTask (title_at sender w)] /\
     trace after = trace w ++ [RunAsync (SetHeaderTask (title_at sender w));
                               ActivePaneChanged]) /\
  Pane_raise_GotFocus sender after = Ok tt after.
Proof.
  cbv zeta. rewrite raise_GotFocus_outcome. simpl.
  destruct (focus_moves sender w) eqn:E.
  - split; [reflexivity|]. split; [discriminate|]. split; [intros _; repeat split|].
    rewrite raise_GotFocus_outcome. now rewrite focus_moves_settled.
  - split; [reflexivity|]. split; [reflexivity|]. split; [discriminate|].
    rewrite raise_GotFocus_outcome. now rewrite E.
Qed.

Lemma GetActiveTitle_is_title_at w :
  Tab_GetActiveTitle w = Ok (title_at (_activePane (tab w)) w) w.
Proof.
  unfold Tab_GetActiveTitle, Tab_GetActiveTerminalControl, Pane_GetTerminalControl,
    deref, title_at, control_at.
  unfold_M. destruct (tree w) as [t|]; [|reflexivity].
  destruct (find_pane _ t) as [[? ? [c|] ? ?|]|]; reflexivity.
Qed.

(** X8: the header follows the focus.  When a GotFocus gets past the guards
    and the dispatcher then runs, the header is the title of the sender's
    control, which is also what GetActiveTitle now answers. *)
Theorem X8_header_follows_focus sender w :
  focus_moves sender w = true ->
  exists w1 w2,
    Pane_raise_GotFocus sender w = Ok tt w1 /\
    Dispatcher_drain w1 = Ok tt w2 /\
    _activePane (tab w2) = sender /\
    Header (_tabViewItem (tab w2)) = Some (title_at sender w) /\
    Tab_GetActiveTitle w2 = Ok (title_at sender w) w2.
Proof.
  intros Hmoves.
  assert (Halive : tabAlive w = true).
  { unfold focus_moves in Hmoves. apply andb_prop in Hmoves as [H _].
    apply andb_prop in H as [_ H]. exact H. }
  exists (focus_moved sender w).
  destruct (run_tasks_last_header (dispatcher w) (title_at sender w)
              (with_dispatcher [] (focus_moved sender w)) Halive)
    as (w2 & E2 & Hh & Ht & Ha).
  destruct (run_tasks_returns (dispatcher w ++ [SetHeaderTask (title_at sender w)])
              (with_dispatcher [] (focus_moved sender w))) as (w2' & E2' & S2).
  rewrite E2 in E2'. inversion E2'; subst w2'. clear E2'.
  exists w2. split; [now rewrite raise_GotFocus_outcome, Hmoves|].
  split; [exact E2|]. simpl in Ha, Ht. split; [exact Ha|]. split; [exact Hh|].
  rewrite GetActiveTitle_is_title_at. f_equal.
  unfold same_but_item in S2. simpl in S2.
  destruct S2 as (_ & _ & Sti & _).
  unfold title_at. rewrite Ht, Ha, Sti, control_at_marked. reflexivity.
Qed.

(** ** Which call writes which member *)

Ltac unfold_exec :=
  unfold Tab_BindEventHandlers, Tab_SplitPane, Pane_Split, Tab_ClosePane, Pane_Close,
    Pane_raise_Closed, invoke_Closed, Tab_NavigateFocus, Pane_NavigateFocus,
    Tab_ResizeContent, Pane_ResizeContent, Tab_SetFocused, Tab__Focus, Tab_IsFocused,
    Tab_UpdateIcon, Pane_raise_GotFocus, invoke_GotFocus, Control_raise_TitleChanged,
    invoke_TitleChanged, Dispatcher_drain,
    Tab__AttachEventHandlersToPane, Tab__AttachEventHandlersToControl,
    Pane_GotFocus, Control_TitleChanged, Tree_ClearActive, Pane_ClearActive,
    Pane_SetActive, Tab_GetActiveTitle, Tab_SetTabText, Tab_GetActiveTerminalControl,
    Pane_GetTerminalControl, Dispatcher_RunAsync, call_at, emit, weakThis_lock,
    this_activePane, this_rootPane.

Lemma keeps_run_tasks (I : World -> Prop) q :
  (forall w w', same_but_item w w' -> I w -> I w') -> keeps I (run_tasks q).
Proof.
  intros HI w Hw. destruct (run_tasks_returns q w) as (w' & E & S).
  rewrite E. simpl. eauto.
Qed.

Section Writers.

Variable MinimumSize : Size.

Lemma activePane_written_by_GotFocus v m :
  (forall sender, m <> EventGotFocus sender) ->
  keeps (fun w => _activePane (tab w) = v) (exec MinimumSize m).
Proof.
  intros Hm. destruct m; simpl; try (exfalso; eapply Hm; reflexivity);
    unfold_exec; keeps_frame.
  apply keeps_run_tasks. unfold same_but_item. intuition congruence.
Qed.

Lemma focused_written_by_SetFocused v m :
  (forall focused, m <> CallSetFocused focused) ->
  keeps (fun w => _focused (tab w) = v) (exec MinimumSize m).
Proof.
  intros Hm. destruct m; simpl; try (exfalso; eapply Hm; reflexivity);
    unfold_exec; keeps_frame.
  apply keeps_run_tasks. unfold same_but_item. intuition congruence.
Qed.

Lemma lastIconPath_written_by_UpdateIcon v m :
  (forall iconPath, m <> CallUpdateIcon iconPath) ->
  keeps (fun w => _lastIconPath (tab w) = v) (exec MinimumSize m).
Proof.
  intros Hm. destruct m; simpl; try (exfalso; eapply Hm; reflexivity);
    unfold_exec; keeps_frame.
  apply keeps_run_tasks. unfold same_but_item. intuition congruence.
Qed.

Lemma tabViewItem_written_by_dispatcher v m :
  m <> EventDispatch ->
  keeps (fun w => _tabViewItem (tab w) = v) (exec MinimumSize m).
Proof.
  intros Hm. destruct m; simpl; try (exfalso; apply Hm; reflexivity);
    unfold_exec; keeps_frame.
Qed.

End Writers.

(** X4: every member of the Tab has one writer.  [_rootPane] is never
    written after construction; [_activePane] is written only by a GotFocus
    event, so SplitPane, ClosePane and NavigateFocus leave it as it was;
    [_focused] only by SetFocused; [_lastIconPath] only by UpdateIcon; and the
    tab view item only when the dispatcher runs, so that SetTabText and
    UpdateIcon never write the header or the icon themselves. *)
Theorem X4_each_member_has_one_writer MinimumSize m w :
  let w' := world_of (exec MinimumSize m w) in
  _rootPane (tab w') = _rootPane (tab w) /\
  ((forall sender, m <> EventGotFocus sender) ->
   _activePane (tab w') = _activePane (tab w)) /\
  ((forall focused, m <> CallSetFocused focused) ->
   _focused (tab w') = _focused (tab w)) /\
  ((forall iconPath, m <> CallUpdateIcon iconPath) ->
   _lastIconPath (tab w') = _lastIconPath (tab w)) /\
  (m <> EventDispatch -> _tabViewItem (tab w') = _tabViewItem (tab w)).
Proof.
  cbv zeta. split; [|split; [|split; [|split]]].
  - apply (unchanged_exec MinimumSize (ClosedHandlers w) (_rootPane (tab w)) m w).
    split; reflexivity.
  - intros Hm. now apply (activePane_written_by_GotFocus MinimumSize _ m Hm w).
  - intros Hm. now apply (focused_written_by_SetFocused MinimumSize _ m Hm w).
  - intros Hm. now apply (lastIconPath_written_by_UpdateIcon MinimumSize _ m Hm w).
  - intros Hm. now apply (tabViewItem_written_by_dispatcher MinimumSize _ m Hm w).
Qed.

(** ** Which calls can fault *)

Lemma returns_ret {A} I (a : A) : returns_while I (ret a).
Proof. intros w H. now exists a, w. Qed.

Lemma returns_gets {A} I (f : World -> A) : returns_while I (gets f).
Proof. intros w H. now exists (f w), w. Qed.

Lemma returns_modify I f : (forall w, I w -> I (f w)) -> returns_while I (modify f).
Proof. intros Hf w H. exists tt, (f w). split; [reflexivity | now apply Hf]. Qed.

Lemma returns_bind {A B} I (m : M A) (k : A -> M B) :
  returns_while I m -> (forall a, returns_while I (k a)) -> returns_while I (bind m k).
Proof.
  intros Hm Hk w H. destruct (Hm w H) as (a & w1 & E & H1).
  destruct (Hk a w1 H1) as (b & w2 & E2 & H2). exists b, w2.
  unfold bind. now rewrite E.
Qed.

Lemma returns_raise_to {K H} I (eqb : K -> K -> bool) (invoke : H -> M unit) source hs :
  (forall h, returns_while I (invoke h)) -> returns_while I (raise_to eqb invoke source hs).
Proof.
  intros Hinv. induction hs as [| [k h] hs IH]; simpl; [apply returns_ret|].
  apply returns_bind; [|intros _; exact IH].
  destruct (eqb k source); [apply Hinv | apply returns_ret].
Qed.

Lemma returns_run_tasks q : returns_while owned (run_tasks q).
Proof.
  intros w H. destruct (run_tasks_returns q w) as (w' & E & S). exists tt, w'.
  split; [exact E|]. unfold owned, same_but_item in *. intuition congruence.
Qed.

(** On an owned Tab a lock succeeds and [this] is not dangling: what runs is
    the branch of the live Tab. *)
Lemma returns_owned_branch {A} (k : bool -> M A) :
  returns_while owned (k true) -> returns_while owned (bind (gets tabAlive) k).
Proof.
  intros Hk w H. unfold bind, gets. unfold owned in H. rewrite H.
  apply Hk. exact H.
Qed.

Ltac returns_all :=
  repeat match goal with
    | |- returns_while _ (ret _) => apply returns_ret
    | |- returns_while _ (gets _) => apply returns_gets
    | |- returns_while _ (modify _) =>
        apply returns_modify;
        let w := fresh "w" in let H := fresh "H" in intros w H; exact H
    | |- returns_while _ (run_tasks _) => apply returns_run_tasks
    | |- returns_while _ (raise_to _ _ _ _) => apply returns_raise_to; intros ?
    | |- returns_while _ (bind (gets tabAlive) _) =>
        apply returns_owned_branch; cbv beta iota
    | |- returns_while _ (bind _ _) => apply returns_bind; [|intros ?]
    | |- returns_while _ (match ?x with _ => _ end) => destruct x
    end.

Lemma Pane_Split_cases MinimumSize this splitType profile control w :
  (exists w1, Pane_Split MinimumSize this splitType profile control w
              = Ok (None, None) w1) \/
  (exists first second w1,
     Pane_Split MinimumSize this splitType profile control w
     = Ok (Some first, Some second) w1).
Proof.
  unfold Pane_Split, Tree_ClearActive, Pane_SetActive. unfold_M.
  destruct (deref this w) as [[i p c a sz|]|]; eauto.
  destruct (fits MinimumSize splitType sz); eauto.
Qed.

Lemma GetActiveTerminalControl_is_control_at w :
  Tab_GetActiveTerminalControl w = Ok (control_at (_activePane (tab w)) (tree w)) w.
Proof.
  unfold Tab_GetActiveTerminalControl, Pane_GetTerminalControl, deref, control_at.
  unfold_M. destruct (tree w) as [t|]; [|reflexivity].
  destruct (find_pane _ t) as [[? ? [c|] ? ?|]|]; reflexivity.
Qed.

(** X7: on a Tab that is owned, a call faults only for want of a control.
    Of the calls and events of [Activity] -- BindEventHandlers, SplitPane,
    ClosePane, NavigateFocus, ResizeContent, SetFocused, UpdateIcon,
    SetTabText, Scroll, the GotFocus, TitleChanged and Closed events and the
    dispatcher -- all but BindEventHandlers, SplitPane and Scroll always
    return, and leave the Tab owned.  BindEventHandlers returns exactly when
    the control it is handed is not null; SplitPane returns exactly when the
    control is not null and Split handed back two panes; Scroll returns
    exactly when the active pane has a control. *)
Theorem X7_faults_come_from_null_controls MinimumSize w :
  tabAlive w = true ->
  (forall a,
     (forall control, a <> Listed (CallBindEventHandlers control)) ->
     (forall splitType profile control,
        a <> Listed (CallSplitPane splitType profile control)) ->
     (forall delta, a <> CallScroll delta) ->
     exists w', perform MinimumSize a w = Ok tt w' /\ tabAlive w' = true) /\
  (forall control,
     (exists w', Tab_BindEventHandlers control w = Ok tt w') <-> control <> None) /\
  (forall splitType profile control,
     (exists w', Tab_SplitPane MinimumSize splitType profile control w = Ok tt w') <->
     control <> None /\
     exists first second w1,
       Pane_Split MinimumSize (_activePane (tab w)) splitType profile control w
       = Ok (Some first, Some second) w1) /\
  (forall delta,
     (exists w', Tab_Scroll delta w = Ok tt w') <->
     control_at (_activePane (tab w)) (tree w) <> None).
Proof.
  intros Halive. split; [|split; [|split]].
  - intros a Hbind Hsplit Hscroll.
    assert (R : returns_while owned (perform MinimumSize a)).
    { destruct a as [m | text | delta | pane]; simpl;
        [destruct m; simpl| | |];
        try (exfalso; eapply Hbind; reflexivity);
        try (exfalso; eapply Hsplit; reflexivity);
        try (exfalso; eapply Hscroll; reflexivity);
        unfold_exec; returns_all. }
    destruct (R w Halive) as ([] & w' & E & H'). eauto.
  - intros control. unfold Tab_BindEventHandlers, Tab__AttachEventHandlersToPane,
      Tab__AttachEventHandlersToControl, Pane_GotFocus, Control_TitleChanged.
    unfold_M. destruct control as [c|]; split.
    + discriminate.
    + eauto.
    + intros [w' E]. discriminate.
    + intros H. now contradiction H.
  - intros splitType profile control.
    unfold Tab_SplitPane. unfold bind at 1, this_activePane at 1, gets at 1.
    unfold bind at 1.
    destruct (Pane_Split_cases MinimumSize (_activePane (tab w)) splitType profile control w)
      as [(w1 & E) | (f & s & w1 & E)]; rewrite E;
      unfold Tab__AttachEventHandlersToPane, Tab__AttachEventHandlersToControl,
        Pane_GotFocus, Control_TitleChanged; unfold_M;
      destruct control as [c|]; split.
    + intros [w' H]. discriminate.
    + intros (_ & f & s & w2 & H). discriminate.
    + intros [w' H]. discriminate.
    + intros (H & _). now contradiction H.
    + intros _. split; [discriminate | eauto].
    + eauto.
    + intros [w' H]. discriminate.
    + intros (H & _). now contradiction H.
  - intros delta. unfold Tab_Scroll, bind.
    rewrite GetActiveTerminalControl_is_control_at.
    destruct (control_at (_activePane (tab w)) (tree w)) as [c|]; split.
    + discriminate.
    + intros _. unfold emit, modify. eauto.
    + intros [w' H]. discriminate.
    + intros H. now contradiction H.
Qed.

(** ** Which call raises what *)

Section Appends.

Context {X : Type} (log : World -> list X) (P : X -> Prop).

Lemma appends_ret {A} (a : A) : appends log P (ret a).
Proof. intros w. exists []. split; [now rewrite app_nil_r | constructor]. Qed.

Lemma appends_gets {A} (f : World -> A) : appends log P (gets f).
Proof. intros w. exists []. split; [now rewrite app_nil_r | constructor]. Qed.

Lemma appends_fault {A} : appends log P (@fault A).
Proof. intros w. exists []. split; [now rewrite app_nil_r | constructor]. Qed.

Lemma appends_modify_same f : (forall w, log (f w) = log w) -> appends log P (modify f).
Proof.
  intros Hf w. exists []. split; [simpl; now rewrite Hf, app_nil_r | constructor].
Qed.

Lemma appends_modify_add f x :
  (forall w, log (f w) = log w ++ [x]) -> P x -> appends log P (modify f).
Proof. intros Hf Hx w. exists [x]. split; [apply Hf | now constructor]. Qed.

Lemma appends_bind {A B} (m : M A) (k : A -> M B) :
  appends log P m -> (forall a, appends log P (k a)) -> appends log P (bind m k).
Proof.
  intros Hm Hk w. unfold bind. destruct (Hm w) as (xs & E & F).
  destruct (m w) as [a w1 | w1]; simpl in *.
  - destruct (Hk a w1) as (xs' & E' & F'). exists (xs ++ xs').
    split; [now rewrite E', E, app_assoc | now apply Forall_app].
  - exists xs. now split.
Qed.

Lemma appends_raise_to {K H} (eqb : K -> K -> bool) (invoke : H -> M unit) source hs :
  (forall h, appends log P (invoke h)) -> appends log P (raise_to eqb invoke source hs).
Proof.
  intros Hinv. induction hs as [| [k h] hs IH]; simpl; [apply appends_ret|].
  apply appends_bind; [|intros _; exact IH].
  destruct (eqb k source); [apply Hinv | apply appends_ret].
Qed.

Lemma appends_run_tasks q :
  (forall w w', same_but_item w w' -> log w' = log w) -> appends log P (run_tasks q).
Proof.
  intros Hlog w. destruct (run_tasks_returns q w) as (w' & E & S). rewrite E. simpl.
  exists []. split; [|constructor]. rewrite app_nil_r. now apply Hlog.
Qed.

End Appends.

Ltac appends_all :=
  repeat match goal with
    | |- appends _ _ (ret _) => apply appends_ret
    | |- appends _ _ (gets _) => apply appends_gets
    | |- appends _ _ fault => apply appends_fault
    | |- appends _ _ (modify _) =>
        first [ apply appends_modify_same; intros ?; reflexivity
              | eapply appends_modify_add; [intros ?; reflexivity | simpl; eauto] ]
    | |- appends _ _ (run_tasks _) =>
        apply appends_run_tasks; unfold same_but_item; intros; tauto
    | |- appends _ _ (raise_to _ _ _ _) => apply appends_raise_to; intros ?
    | |- appends _ _ (bind _ _) => apply appends_bind; [|intros ?]
    | |- appends _ _ (match ?x with _ => _ end) => destruct x
    end.

(** X9: every effect has its origin.  Whichever activity happens --
    BindEventHandlers, SplitPane, ClosePane, NavigateFocus, ResizeContent,
    SetFocused, UpdateIcon, SetTabText, Scroll, a GotFocus, TitleChanged or
    Closed event, the dispatcher -- and whether it returns or faults, the
    trace only grows, and what is added is the activity's own: the Tab raises
    Closed only when a pane raised Closed, by itself or because ClosePane
    closed it; ActivePaneChanged comes from a GotFocus event alone, a focus
    request from SetFocused(true) alone, an icon task from UpdateIcon alone, a
    scroll task from Scroll alone and with the [delta] of that call, and a
    header task from SetTabText with that text, or from a GotFocus or a
    TitleChanged event. *)
Theorem X9_every_effect_has_its_origin MinimumSize a w :
  exists raised,
    trace (world_of (perform MinimumSize a w)) = trace w ++ raised /\
    Forall (comes_from a) raised.
Proof.
  assert (E : appends trace (comes_from a) (perform MinimumSize a)).
  { destruct a as [m | text | delta | pane]; simpl; [destruct m; simpl| | |];
      unfold Tab_Scroll; unfold_exec; try solve [appends_all].
    (* SetFocused: only the call with [true] reaches _Focus *)
    destruct focused.
    - appends_all.
    - intros v. exists []. split; [|constructor]. unfold_M. now rewrite app_nil_r. }
  exact (E w).
Qed.

(** ** The controls the Tab listens to *)

Lemma registers_only_what_it_is_handed MinimumSize m :
  appends TitleChangedHandlers (handed_over m) (exec MinimumSize m).
Proof.
  destruct m; simpl; unfold_exec; unfold handed_over; appends_all.
Qed.

Lemma run_registers MinimumSize ms :
  forall w registration,
    In registration (TitleChangedHandlers (world_of (run MinimumSize ms w))) ->
    In registration (TitleChangedHandlers w) \/
    exists m, In m ms /\ handed_over m registration.
Proof.
  induction ms as [|m ms IH]; intros w registration Hin; simpl in *; [now left|].
  unfold bind in Hin.
  destruct (registers_only_what_it_is_handed MinimumSize m w) as (added & E & F).
  assert (Hstep : In registration (TitleChangedHandlers (world_of (exec MinimumSize m w))) ->
                  In registration (TitleChangedHandlers w) \/
                  exists m', In m' (m :: ms) /\ handed_over m' registration).
  { rewrite E. intros H. apply in_app_or in H. destruct H as [H | H]; [now left|].
    right. exists m. split; [now left|]. rewrite Forall_forall in F. now apply F. }
  destruct (exec MinimumSize m w) as [[] w1 | w1]; simpl in *.
  - destruct (IH w1 registration Hin) as [H | (m' & Hm' & Hh)].
    + now apply Hstep.
    + right. exists m'. split; [now right | assumption].
  - now apply Hstep.
Qed.

(** X11: the Tab never unsubscribes from a TitleChanged event and never
    subscribes on its own account: a call or event leaves the registrations in
    place and adds only the control it was handed, so after any sequence of
    calls and events on a constructed Tab every control it listens to was
    passed to BindEventHandlers or to SplitPane. *)
Theorem X11_listens_only_to_controls_it_was_handed MinimumSize :
  (forall m w,
     exists added,
       TitleChangedHandlers (world_of (exec MinimumSize m w))
       = TitleChangedHandlers w ++ added /\
       Forall (handed_over m) added) /\
  (forall titles profile control ms c h,
     In (c, h) (TitleChangedHandlers
                  (world_of (run MinimumSize ms (new_Tab titles profile control)))) ->
     exists m, In m ms /\
       (m = CallBindEventHandlers (Some c) \/
        exists splitType profile', m = CallSplitPane splitType profile' (Some c))).
Proof.
  split.
  - intros m w. apply registers_only_what_it_is_handed.
  - intros titles profile control ms c h Hin.
    destruct (run_registers MinimumSize ms _ _ Hin) as [[] | (m & Hm & Hh)].
    exists m. split; [assumption | exact Hh].
Qed.

(** ** How often UpdateIcon reloads *)

(** X10: UpdateIcon compares with the last path only.  Along any sequence
    of calls it queues one icon task for every call whose path differs from
    the path of the call before it (from the remembered path, for the first
    call) and none for the others; the icon itself is not touched by the
    calls. *)
Theorem X10_UpdateIcon_reloads_once_per_change paths :
  forall w,
    exists w',
      calls Tab_UpdateIcon paths w = Ok tt w' /\
      _lastIconPath (tab w') = last paths (_lastIconPath (tab w)) /\
      dispatcher w'
      = dispatcher w ++ repeat SetIconSourceTask (changes (_lastIconPath (tab w)) paths) /\
      _tabViewItem (tab w') = _tabViewItem (tab w).
Proof.
  induction paths as [|p paths IH]; intros w.
  - exists w. simpl. now rewrite app_nil_r.
  - assert (H1 : exists w1,
               Tab_UpdateIcon p w = Ok tt w1 /\ _lastIconPath (tab w1) = p /\
               dispatcher w1
               = dispatcher w ++ repeat SetIconSourceTask
                                   (if String.eqb p (_lastIconPath (tab w)) then 0 else 1) /\
               _tabViewItem (tab w1) = _tabViewItem (tab w)).
    { unfold Tab_UpdateIcon. unfold_M.
      destruct (String.eqb_spec p (_lastIconPath (tab w))) as [E | E];
        eexists; (split; [reflexivity|]); simpl; rewrite ?app_nil_r; auto. }
    destruct H1 as (w1 & E1 & Hp1 & Hq1 & Hi1).
    destruct (IH w1) as (w' & E & Hp & Hq & Hi).
    exists w'. simpl calls. unfold bind. rewrite E1. split; [exact E|].
    rewrite Hp, Hq, Hi, Hq1, Hi1, Hp1. simpl changes.
    rewrite repeat_app, app_assoc. split; [|split; reflexivity].
    destruct paths as [|y l]; [reflexivity|].
    change (last (p :: y :: l) (_lastIconPath (tab w)))
      with (last (y :: l) (_lastIconPath (tab w))).
    apply last_nonempty.
Qed.

Example UpdateIcon_back_and_forth :
  changes EmptyString ["a.ico"; "a.ico"; "b.ico"; "a.ico"; "a.ico"]%string = 3.
Proof. reflexivity. Qed.

(** ** The further properties at concrete inputs *)

Lemma X1_expired_tab_ignores_events_witness :
  let w := Owner_releases tab_AB_focused in
  (tabAlive w = false /\ dispatcher w = [SetHeaderTask "pwsh"%string]) /\
  Pane_raise_GotFocus 1 w = Ok tt w /\
  Control_raise_TitleChanged 0 "vim"%string w = Ok tt w /\
  Dispatcher_drain w = Ok tt (with_dispatcher [] w) /\
  Header (_tabViewItem (tab (with_dispatcher [] w))) = None.
Proof.
  intros w. split; [split; reflexivity|].
  destruct (X1_expired_tab_ignores_events w eq_refl) as (Hf & Ht & Hd).
  split; [apply Hf|]. split; [apply Ht|]. split; [exact Hd | reflexivity].
Defined.

Lemma X2_SetTabText_last_call_wins_witness :
  tabAlive tab_AB_focused = true /\
  exists w1 w2,
    calls Tab_SetTabText (["one"%string; "two"%string] ++ ["three"%string]) tab_AB_focused = Ok tt w1 /\
    Dispatcher_drain w1 = Ok tt w2 /\
    Header (_tabViewItem (tab w2)) = Some "three"%string.
Proof.
  split; [reflexivity|].
  destruct (X2_SetTabText_last_call_wins tab_AB_focused ["one"; "two"]%string
              "three"%string eq_refl) as (w1 & w2 & E1 & E2 & Hh & _).
  exists w1, w2. repeat split; assumption.
Defined.

Lemma X3_UpdateIcon_shows_last_path_witness :
  (tabAlive tab_A = true /\ "a.ico"%string <> _lastIconPath (tab tab_A)) /\
  exists w1 w2,
    calls Tab_UpdateIcon ["a.ico"; "b.ico"; "c.ico"]%string tab_A = Ok tt w1 /\
    Dispatcher_drain w1 = Ok tt w2 /\
    dispatcher w1 = [SetIconSourceTask; SetIconSourceTask; SetIconSourceTask] /\
    IconSource (_tabViewItem (tab w2)) = Some "c.ico"%string.
Proof.
  assert (Hne : "a.ico"%string <> _lastIconPath (tab tab_A)) by (simpl; discriminate).
  split; [split; [reflexivity | exact Hne]|].
  destruct (X3_UpdateIcon_shows_last_path tab_A "a.ico"%string ["b.ico"; "c.ico"]%string
              eq_refl Hne) as (w1 & w2 & E1 & E2 & _ & Hi).
  exists w1, w2. split; [exact E1|]. split; [exact E2|]. split; [|exact Hi].
  vm_compute in E1. inversion E1. reflexivity.
Defined.

Lemma X4_each_member_has_one_writer_witness :
  let w' := world_of (exec one_by_one CallClosePane tab_AB_focused) in
  (option_map leaves (tree tab_AB_focused) = Some [1; 2] /\
   option_map leaves (tree w') = Some [0]) /\
  _activePane (tab tab_AB_focused) = 2 /\
  _activePane (tab w') = 2 /\
  _tabViewItem (tab w') = _tabViewItem (tab tab_AB_focused).
Proof.
  intros w'. split; [split; reflexivity|]. split; [reflexivity|].
  destruct (X4_each_member_has_one_writer one_by_one CallClosePane tab_AB_focused)
    as (_ & Hactive & _ & _ & Hitem).
  split.
  - transitivity (_activePane (tab tab_AB_focused)); [|reflexivity].
    apply Hactive. discriminate.
  - apply Hitem. discriminate.
Defined.

Lemma X6_one_focus_move_per_event_witness :
  let twice := world_of (Tab_BindEventHandlers (Some 0) tab_A) in
  let split := world_of (Tab_SplitPane one_by_one Vertical 8%N (Some 1) twice) in
  let moved := world_of (Pane_raise_GotFocus 2 split) in
  (GotFocusHandlers split
   = [(0, Tab_AttachEventHandlersToPane_lambda); (0, Tab_AttachEventHandlersToPane_lambda);
      (1, Tab_AttachEventHandlersToPane_lambda); (2, Tab_AttachEventHandlersToPane_lambda)] /\
   focus_moves 2 split = true) /\
  _activePane (tab moved) = 2 /\
  trace moved = trace split ++ [RunAsync (SetHeaderTask "pwsh"%string); ActivePaneChanged] /\
  Pane_raise_GotFocus 2 moved = Ok tt moved.
Proof.
  intros twice split moved. split; [split; reflexivity|].
  destruct (X6_one_focus_move_per_event 2 split) as (_ & _ & Hmoved & Hagain).
  destruct (Hmoved eq_refl) as (Ha & _ & Ht).
  split; [exact Ha|]. split; [exact Ht | exact Hagain].
Defined.

Lemma X7_faults_come_from_null_controls_witness :
  (tabAlive tab_A = true /\ tabAlive tab_AB = true) /\
  (exists w', perform one_by_one (Listed CallClosePane) tab_AB = Ok tt w'
              /\ tabAlive w' = true) /\
  (exists w', perform one_by_one (EventClosed 0) tab_AB = Ok tt w'
              /\ tabAlive w' = true) /\
  (exists w', Tab_BindEventHandlers (Some 0) tab_AB = Ok tt w') /\
  ~ (exists w', Tab_BindEventHandlers None tab_AB = Ok tt w') /\
  (exists w', Tab_SplitPane one_by_one Vertical 8%N (Some 1) tab_A = Ok tt w') /\
  ~ (exists w', Tab_SplitPane one_by_one Vertical 8%N (Some 1) tab_AB = Ok tt w') /\
  (exists w', Tab_Scroll 3 tab_A = Ok tt w') /\
  ~ (exists w', Tab_Scroll 3 tab_AB = Ok tt w').
Proof.
  destruct (X7_faults_come_from_null_controls one_by_one tab_AB eq_refl)
    as (Hall & Hbind & Hsplit & Hscroll).
  destruct (X7_faults_come_from_null_controls one_by_one tab_A eq_refl)
    as (_ & _ & HsplitA & HscrollA).
  split; [split; reflexivity|].
  split; [apply Hall; discriminate|].
  split; [apply Hall; discriminate|].
  split; [apply Hbind; discriminate|].
  split; [intros H; apply Hbind in H; now apply H|].
  split; [|split; [|split]].
  - apply HsplitA. split; [discriminate|]. eexists. eexists. eexists. reflexivity.
  - intros H. apply Hsplit in H. destruct H as (_ & f & s & w1 & E). discriminate.
  - apply HscrollA. discriminate.
  - intros H. apply Hscroll in H. now apply H.
Defined.

Lemma X8_header_follows_focus_witness :
  focus_moves 1 tab_AB = true /\
  exists w1 w2,
    Pane_raise_GotFocus 1 tab_AB = Ok tt w1 /\
    Dispatcher_drain w1 = Ok tt w2 /\
    _activePane (tab w2) = 1 /\
    Header (_tabViewItem (tab w2)) = Some "cmd"%string /\
    Tab_GetActiveTitle w2 = Ok "cmd"%string w2.
Proof.
  split; [reflexivity|].
  exact (X8_header_follows_focus 1 tab_AB eq_refl).
Defined.

Lemma X11_listens_only_to_controls_it_was_handed_witness :
  In (1, Tab_AttachEventHandlersToControl_lambda)
     (TitleChangedHandlers
        (world_of (run one_by_one (firstn 3 scenario) (new_Tab cmd_titles 7%N (Some 0))))) /\
  exists m, In m (firstn 3 scenario) /\
    (m = CallBindEventHandlers (Some 1) \/
     exists splitType profile', m = CallSplitPane splitType profile' (Some 1)).
Proof.
  assert (Hin : In (1, Tab_AttachEventHandlersToControl_lambda)
                   (TitleChangedHandlers
                      (world_of (run one_by_one (firstn 3 scenario)
                                     (new_Tab cmd_titles 7%N (Some 0))))))
    by (simpl; auto).
  split; [exact Hin|].
  exact (proj2 (X11_listens_only_to_controls_it_was_handed one_by_one)
           cmd_titles 7%N (Some 0) (firstn 3 scenario) 1 _ Hin).
Defined.
